(** * valid-person-finder: a Rocq model of [src/main.py]

    The development embeds the person-finder pipeline of [src/main.py]
    (query builder, search aggregator, page fetcher, name-shape filter,
    credibility scorer and ranking engine) and checks the properties the
    specification states about it.

    Modelling conventions.
    - A Python [str] is a [string] of bytes; case mapping and white space
      are the ASCII ones.
    - A Python [float] score is an exact rational of [Q]; the literals
      [0.95], [0.1], ... denote the decimal fractions the source writes.
      Module [Binary64] re-runs the documented ranking example on IEEE
      doubles.
    - The process-wide [cache] dictionaries are [gmap]s; the insertion
      ordered [defaultdict(list)] of name candidates is an association list.
    - Everything the program obtains from outside (search providers, HTTP,
      HTML stripping, the NER model, the regex engine, MD5) is a field of
      the environment [Env]; provider answers may depend on the history of
      earlier external calls. *)

From Stdlib Require Import QArith Qminmax ZArith List String Ascii Bool Lia Lqa.
From Stdlib Require Import Floats.
From stdpp Require Import gmap strings.
Import ListNotations.

#[local] Set Warnings "-abstract-large-number,-inexact-float".

Open Scope string_scope.

(* ===================================================================== *)
(** * Part I: definitions                                                  *)
(* ===================================================================== *)

(** ** Python string methods used by the program *)

Module PyStr.

Definition code (c : ascii) : N := N_of_ascii c.

Definition in_range (lo hi : N) (c : ascii) : bool :=
  ((lo <=? code c) && (code c <=? hi))%N.

(** [str.isspace] on ASCII: TAB, LF, VT, FF, CR, FS, GS, RS, US, SPACE. *)
Definition isspace (c : ascii) : bool := in_range 9 13 c || in_range 28 32 c.

Definition isupper (c : ascii) : bool := in_range 65 90 c.
Definition islower (c : ascii) : bool := in_range 97 122 c.
Definition isalpha (c : ascii) : bool := isupper c || islower c.
Definition isdigit (c : ascii) : bool := in_range 48 57 c.

Definition lower_char (c : ascii) : ascii :=
  if isupper c then ascii_of_N (code c + 32) else c.
Definition upper_char (c : ascii) : ascii :=
  if islower c then ascii_of_N (code c - 32) else c.

Fixpoint map (f : ascii -> ascii) (s : string) : string :=
  match s with
  | EmptyString => EmptyString
  | String c s' => String (f c) (map f s')
  end.

(** [s.lower()] and [s.upper()]. *)
Definition lower (s : string) : string := map lower_char s.
Definition upper (s : string) : string := map upper_char s.

(** Truthiness of a string: [bool(s)]. *)
Definition nonempty (s : string) : bool :=
  match s with EmptyString => false | String _ _ => true end.

Fixpoint rev_onto (acc s : string) : string :=
  match s with
  | EmptyString => acc
  | String c s' => rev_onto (String c acc) s'
  end.
Definition rev (s : string) : string := rev_onto EmptyString s.

(** [s.split()]: maximal runs of non-space characters, in order.
    [word] holds the characters of the run being read, last one first. *)
Fixpoint split_from (word : string) (s : string) : list string :=
  match s with
  | EmptyString => if nonempty word then [rev word] else []
  | String c s' =>
      if isspace c
      then (if nonempty word then rev word :: split_from EmptyString s'
            else split_from EmptyString s')
      else split_from (String c word) s'
  end.
Definition split (s : string) : list string := split_from EmptyString s.

(** [s.split(sep)] for a one-character separator: empty fields are kept. *)
Fixpoint split_sep_from (sep : ascii) (field : string) (s : string) : list string :=
  match s with
  | EmptyString => [rev field]
  | String c s' =>
      if Ascii.eqb c sep
      then rev field :: split_sep_from sep EmptyString s'
      else split_sep_from sep (String c field) s'
  end.
Definition split_sep (sep : ascii) (s : string) : list string :=
  split_sep_from sep EmptyString s.

(** [s.strip()]. *)
Fixpoint lstrip (s : string) : string :=
  match s with
  | EmptyString => EmptyString
  | String c s' => if isspace c then lstrip s' else s
  end.
Definition rstrip (s : string) : string := rev (lstrip (rev s)).
Definition strip (s : string) : string := rstrip (lstrip s).

(** [needle in hay]. *)
Fixpoint contains (needle hay : string) : bool :=
  String.prefix needle hay ||
  match hay with
  | EmptyString => false
  | String _ hay' => contains needle hay'
  end.


(** [s[:n]]. *)
Fixpoint take (n : nat) (s : string) : string :=
  match n, s with
  | S n', String c s' => String c (take n' s')
  | _, _ => EmptyString
  end.

(** [s[n:]]. *)
Fixpoint drop (n : nat) (s : string) : string :=
  match n, s with
  | S n', String _ s' => drop n' s'
  | _, _ => s
  end.

(** [sep.join(parts)]. *)
Definition join (sep : string) (parts : list string) : string :=
  String.concat sep parts.

(** [s in xs] for a list or set of strings. *)
Definition mem (s : string) (xs : list string) : bool :=
  existsb (String.eqb s) xs.

End PyStr.

(** A value that may be [None]: [bool(v)] and [a or b]. *)
Definition truthy (v : option string) : bool :=
  match v with
  | Some s => PyStr.nonempty s
  | None => false
  end.

Definition py_or (a b : option string) : option string :=
  if truthy a then a else b.

(** ** Name-shape filter: [is_likely_name] *)

(** [re.match(r'^[A-Z][a-zA-Z.]*$', w)].  The class [[a-zA-Z.]] is
    [name_char]; [$] also matches just before a final line feed. *)
Definition name_char (c : ascii) : bool :=
  PyStr.isalpha c || Ascii.eqb c "."%char.

Fixpoint shape_tail (s : string) : bool :=
  match s with
  | EmptyString => true
  | String c s' =>
      (name_char c && shape_tail s') ||
      (Ascii.eqb c "010"%char && negb (PyStr.nonempty s'))
  end.

Definition re_match_name_shape (w : string) : bool :=
  match w with
  | EmptyString => false
  | String c s' => PyStr.isupper c && shape_tail s'
  end.

Definition blacklist : list string :=
  ["Chief"; "Executive"; "Officer"; "Founder"; "Director"; "Manager";
   "Google"; "Company"; "Inc"; "Ltd"; "Corporation"; "The"; "And"; "Of";
   "President"; "Chairman"; "Board"; "Member"; "Head"; "Lead"].

Definition is_likely_name (candidate : string) : bool :=
  let words := PyStr.split candidate in
  if (length words <? 2)%nat then false
  else if negb (forallb re_match_name_shape words) then false
  else if existsb (fun w => PyStr.mem w blacklist) words then false
  else true.

(** The shape as the specification words it: an upper-case letter followed
    by letters and periods only. *)
Fixpoint all_chars (p : ascii -> bool) (s : string) : bool :=
  match s with
  | EmptyString => true
  | String c s' => p c && all_chars p s'
  end.

(** A word of [split] is not empty and free of white space. *)
Definition solid (c : ascii) : bool := negb (PyStr.isspace c).

Definition is_word (w : string) : Prop :=
  PyStr.nonempty w = true /\ all_chars solid w = true.

Definition capitalised_word (w : string) : bool :=
  match w with
  | EmptyString => false
  | String c s' => PyStr.isupper c && all_chars name_char s'
  end.

(** ** Query builder: [build_queries] *)

Definition aliases : list (string * list string) :=
  [("CEO", ["Chief Executive Officer"; "Chief Executive"]);
   ("CTO", ["Chief Technology Officer"; "Chief Technical Officer"]);
   ("CFO", ["Chief Financial Officer"]);
   ("CMO", ["Chief Marketing Officer"; "Marketing Director"]);
   ("COO", ["Chief Operating Officer"]);
   ("Founder", ["Co-Founder"; "Founding Partner"]);
   ("Director", ["Managing Director"; "Executive Director"]);
   ("Manager", ["General Manager"; "Senior Manager"]);
   ("President", ["President & CEO"])].

(** [aliases.get(key, [])]. *)
Fixpoint dict_get {V : Type} (d : list (string * V)) (key : string) : option V :=
  match d with
  | [] => None
  | (k, v) :: d' => if String.eqb k key then Some v else dict_get d' key
  end.

Definition aliases_get (key : string) : list string :=
  match dict_get aliases key with
  | Some v => v
  | None => []
  end.

Definition role_variants (role : string) : list string :=
  let role_upper := PyStr.upper role in
  let role_variants := role :: aliases_get role_upper in
  if PyStr.contains "&" role then
    let parts := List.map PyStr.strip (PyStr.split_sep "&"%char role) in
    role_variants ++ flat_map (fun p => aliases_get (PyStr.upper p)) parts
  else role_variants.

(** The five templates appended for one role variant [r]. *)
Definition templates (company r : string) : list string :=
  [company ++ " " ++ r;
   "Who is the " ++ r ++ " of " ++ company;
   company ++ " " ++ r ++ " LinkedIn";
   company ++ " leadership " ++ r;
   company ++ " about " ++ r].

(** The list [queries] before [list(set(queries))]. *)
Definition query_list (company role : string) : list string :=
  flat_map (templates company) (role_variants role).

(** [list(set(queries))] keeps one copy of every query, in an order the
    language does not fix: [build_queries company role qs] holds for every
    list [qs] the call may return. *)
Definition build_queries (company role : string) (qs : list string) : Prop :=
  List.NoDup qs /\ forall q, In q qs <-> In q (query_list company role).

(** One of the possible results: first occurrences, in list order. *)
Fixpoint dedup (l : list string) : list string :=
  match l with
  | [] => []
  | q :: l' => if PyStr.mem q l' then dedup l' else q :: dedup l'
  end.

Definition build_queries_some (company role : string) : list string :=
  dedup (query_list company role).

(** The aliases of a role as the specification counts them: those of the
    upper-cased role, and those of each trimmed ["&"]-separated part. *)
Definition known_aliases (role : string) : list string :=
  aliases_get (PyStr.upper role) ++
  (if PyStr.contains "&" role
   then flat_map (fun p => aliases_get (PyStr.upper (PyStr.strip p)))
                 (PyStr.split_sep "&"%char role)
   else []).

(** ** Exceptions *)

(** The exceptions the modelled code can raise, and the outcome of a call
    that may raise. *)
Inductive exn : Type :=
  | ValueError
  | ZeroDivisionError
  | IndexError.

Inductive Res (A : Type) : Type :=
  | Ok (a : A)
  | Raise (e : exn).
Arguments Ok {A} a.
Arguments Raise {A} e.

(** ** [urlparse(url).netloc] *)

(** The part of [urllib.parse.urlsplit] that decides [netloc]: leading
    control characters and spaces are dropped, TAB, CR and LF are removed, a
    well-formed scheme and its colon are skipped, and after ["//"] the
    netloc runs up to the first of [/ ? #].  An unbalanced square bracket in
    the netloc raises [ValueError]. *)
Module UrlParse.

Definition c0_or_space (c : ascii) : bool := (PyStr.code c <=? 32)%N.

Fixpoint lstrip_c0 (s : string) : string :=
  match s with
  | EmptyString => EmptyString
  | String c s' => if c0_or_space c then lstrip_c0 s' else s
  end.

Definition unsafe_byte (c : ascii) : bool :=
  Ascii.eqb c "009"%char || Ascii.eqb c "013"%char || Ascii.eqb c "010"%char.

Fixpoint remove_unsafe (s : string) : string :=
  match s with
  | EmptyString => EmptyString
  | String c s' =>
      if unsafe_byte c then remove_unsafe s' else String c (remove_unsafe s')
  end.

Definition scheme_char (c : ascii) : bool :=
  PyStr.isalpha c || PyStr.isdigit c ||
  Ascii.eqb c "+"%char || Ascii.eqb c "-"%char || Ascii.eqb c "."%char.

(** What follows the first colon, when only scheme characters precede it. *)
Fixpoint after_scheme (s : string) : option string :=
  match s with
  | EmptyString => None
  | String c s' =>
      if Ascii.eqb c ":"%char then Some s'
      else if scheme_char c then after_scheme s' else None
  end.

Definition drop_scheme (url : string) : string :=
  match url with
  | EmptyString => url
  | String c _ =>
      if PyStr.isalpha c
      then match after_scheme url with Some rest => rest | None => url end
      else url
  end.

Definition delimiter (c : ascii) : bool :=
  Ascii.eqb c "/"%char || Ascii.eqb c "?"%char || Ascii.eqb c "#"%char.

Fixpoint until_delimiter (s : string) : string :=
  match s with
  | EmptyString => EmptyString
  | String c s' => if delimiter c then EmptyString else String c (until_delimiter s')
  end.

Definition splitnetloc (url : string) : string :=
  match url with
  | String "/"%char (String "/"%char rest) => until_delimiter rest
  | _ => EmptyString
  end.

Definition unbalanced_brackets (netloc : string) : bool :=
  let opening := PyStr.contains "[" netloc in
  let closing := PyStr.contains "]" netloc in
  (opening && negb closing) || (closing && negb opening).

Definition netloc (url : string) : Res string :=
  let url := remove_unsafe (lstrip_c0 url) in
  let netloc := splitnetloc (drop_scheme url) in
  if unbalanced_brackets netloc then Raise ValueError else Ok netloc.

End UrlParse.

(** ** Credibility scorer: [source_credibility] *)

Open Scope Q_scope.

Definition trusted : list string :=
  ["bloomberg"; "reuters"; "wsj"; "nytimes"; "bbc"; "forbes"; "techcrunch";
   "cnbc"; "ft.com"; "economist"; "apnews"].

(** The cascade of lines 220-232, on the lower-cased netloc. *)
Definition credibility_of_domain (domain : string) : Q :=
  if PyStr.contains "linkedin.com" domain then 0.95
  else if PyStr.contains "wikipedia.org" domain then 0.9
  else if existsb (fun x => PyStr.contains x domain) [".gov"; ".edu"] then 0.85
  else if existsb (fun t => PyStr.contains t domain) trusted then 0.8
  else 0.6.

Definition source_credibility (url : string) : Res Q :=
  match UrlParse.netloc url with
  | Raise e => Raise e
  | Ok netloc => Ok (credibility_of_domain (PyStr.lower netloc))
  end.


(** ** Ranking engine: the scoring loop of [search] *)

(** One contribution [(url, credibility)], and the insertion-ordered
    mapping from a name to its contributions. *)
Definition Contribution : Type := string * Q.
Definition Candidates : Type := list (string * list Contribution).

Definition Qltb (x y : Q) : bool := negb (Qle_bool y x).

(** [sum(...)]: left to right from [0]. *)
Definition py_sum (l : list Q) : Q := fold_left Qplus l 0.

(** [min(x, y)]: the first of the smallest. *)
Definition py_min (x y : Q) : Q := if Qltb y x then y else x.

(** [max(sources, key=lambda x: x[1])]: the first contribution with the
    largest score; [ValueError] on an empty list. *)
Definition py_max_by_score (sources : list Contribution) : Res Contribution :=
  match sources with
  | [] => Raise ValueError
  | s :: rest =>
      Ok (fold_left (fun best x => if Qltb (snd best) (snd x) then x else best) rest s)
  end.

Definition of_len {A : Type} (l : list A) : Q := inject_Z (Z.of_nat (length l)).

Definition common_first_names : list string := ["John"; "Jane"; "David"; "Sarah"].
Definition news_markers : list string := ["/news/"; "/article/"; "bloomberg"; "reuters"].

(** [len(name_parts) == 2 and name_parts[0] in {...}]. *)
Definition generic_name (name : string) : bool :=
  match PyStr.split name with
  | [first; _] => PyStr.mem first common_first_names
  | _ => false
  end.

(** [any(news in best_url for news in [...])]. *)
Definition mentions_news (best_url : string) : bool :=
  existsb (fun news => PyStr.contains news best_url) news_markers.

(** Lines 276-288: the score of one candidate, given the URL of the best
    candidate so far. *)
Definition final_score (name : string) (sources : list Contribution)
    (best_url : string) : Res Q :=
  match sources with
  | [] => Raise ZeroDivisionError
  | _ :: _ =>
      let base_avg := py_sum (List.map snd sources) / of_len sources in
      let multiplier := 1.0 + (of_len sources * 0.1) in
      let multiplier := if generic_name name then multiplier * 0.9 else multiplier in
      let multiplier := if mentions_news best_url then multiplier * 1.05 else multiplier in
      Ok (py_min (base_avg * multiplier) 1.0)
  end.

Record Best : Type := mkBest {
  best_name : option string;
  best_score : Q;
  best_url : string
}.

Definition initial_best : Best :=
  {| best_name := None; best_score := 0.0; best_url := "" |}.

(** One iteration of the loop of lines 274-293. *)
Definition rank_step (b : Best) (item : string * list Contribution) : Res Best :=
  let '(name, sources) := item in
  match final_score name sources (best_url b) with
  | Raise e => Raise e
  | Ok score =>
      if Qltb (best_score b) score then
        match py_max_by_score sources with
        | Raise e => Raise e
        | Ok top =>
            Ok {| best_name := Some name; best_score := score; best_url := fst top |}
        end
      else Ok b
  end.

Fixpoint rank_from (b : Best) (items : Candidates) : Res Best :=
  match items with
  | [] => Ok b
  | item :: items' =>
      match rank_step b item with
      | Raise e => Raise e
      | Ok b' => rank_from b' items'
      end
  end.

Definition rank (name_candidates : Candidates) : Res Best :=
  rank_from initial_best name_candidates.

(** The score as the specification words it: the mean of the scores, times
    the multiplier [1.0 + 0.1 * |S|] with its two optional factors, capped
    at [1.0]. *)
Definition mean (l : list Q) : Q := fold_right Qplus 0 l / of_len l.

Definition spec_multiplier (name : string) (n : nat) (carried_url : string) : Q :=
  (1 + 0.1 * inject_Z (Z.of_nat n))
  * (if generic_name name then 0.9 else 1)
  * (if mentions_news carried_url then 1.05 else 1).

Definition spec_score (name : string) (contribs : list Contribution)
    (carried_url : string) : Q :=
  Qmin (mean (List.map snd contribs)
        * spec_multiplier name (length contribs) carried_url) 1.

(** ** The answer *)

(** [round(x, ndigits)]: to the nearest multiple of [10^-ndigits], ties to
    the even one. *)
Definition round_half_even (q : Q) : Z :=
  let n := Qnum q in
  let d := Zpos (Qden q) in
  let fl := (n / d)%Z in
  match (2 * (n mod d) ?= d)%Z with
  | Lt => fl
  | Gt => (fl + 1)%Z
  | Eq => if Z.even fl then fl else (fl + 1)%Z
  end.

Definition py_round (x : Q) (ndigits : nat) : Q :=
  let scale := inject_Z (10 ^ Z.of_nat ndigits) in
  inject_Z (round_half_even (x * scale)) / scale.

(** The dictionary of lines 303-310; the role is returned under the key
    ["title"]. *)
Record Answer : Type := mkAnswer {
  first_name : string;
  last_name : string;
  title : string;
  company : string;
  source_url : string;
  confidence : Q
}.

(** What [search] hands to its caller: an answer, one of the two error
    dictionaries, or the [HTTPException] of the last handler. *)
Inductive Response : Type :=
  | Found (a : Answer)
  | ErrorResult (error : string) (details : option string)
  | HTTPException (status_code : nat) (detail : string).

Definition no_credible_source : Response :=
  ErrorResult "No credible source found" (Some "Could not extract any name.").

Definition no_valid_name : Response :=
  ErrorResult "Could not determine a valid name." None.

Definition internal_server_error : Response :=
  HTTPException 500 "Internal server error".

(** Lines 295-310, from the outcome of the scoring loop. *)
Definition select_output (company role : string) (b : Best) : Res Response :=
  match best_name b with
  | None => Ok no_valid_name
  | Some name =>
      if negb (PyStr.nonempty name) then Ok no_valid_name
      else
        match PyStr.split name with
        | [] => Raise IndexError
        | first :: rest =>
            let last := match rest with
                        | [] => ""%string
                        | _ :: _ => PyStr.join " " rest
                        end in
            Ok (Found {| first_name := first;
                         last_name := last;
                         title := role;
                         company := company;
                         source_url := best_url b;
                         confidence := py_round (best_score b) 2 |})
        end
  end.

Close Scope Q_scope.

(** ** Search results, the cache and the outside world *)

(** A result dictionary of a provider: the keys the program reads.  A key
    that is absent or holds [None] is [None]. *)
Record SearchResult : Type := mkResult {
  res_title : option string;
  res_href : option string;
  res_url : option string;
  res_body : option string
}.

(** An item of the secondary provider's JSON answer. *)
Record BraveItem : Type := mkItem {
  item_title : option string;
  item_url : option string;
  item_description : option string
}.

(** An entity of the NER model: [ent.label_], [ent.text], [ent.sent.text]. *)
Record Entity : Type := mkEntity {
  label_ : string;
  ent_text : string;
  sent_text : string
}.

(** Calls that leave the process. *)
Inductive Call : Type :=
  | DdgText (query : string) (max_results : nat)
  | BraveGet (query : string) (count : nat)
  | PageGet (url : string).

(** Lines written through [logger]. *)
Inductive LogRecord : Type :=
  | CacheHitDdg (query : string)
  | CacheHitBrave (query : string)
  | CacheHitPage (url : string)
  | DdgFailed
  | BraveError (status_code : nat)
  | BraveException
  | FetchFailed (url : string)
  | RunningQuery (query : string)
  | FoundInSnippet (name url : string)
  | FoundInPage (name url : string)
  | Traceback.

(** The mutable state of the process: the two cache dictionaries, the
    external calls made so far and the log, oldest entry first. *)
Record World : Type := mkWorld {
  cache_search : gmap string (list SearchResult);
  cache_page : gmap string string;
  calls : list Call;
  log : list LogRecord
}.

Definition empty_world : World :=
  {| cache_search := ∅; cache_page := ∅; calls := []; log := [] |}.

(** What the program takes from its environment.  A provider answers
    [None] when the call raises; its answer may depend on the calls made
    before. *)
Class Env : Type := mkEnv {
  USE_NER : bool;
  USE_BRAVE : bool;
  md5_hexdigest : string -> string;
  nlp_ents : string -> list Entity;
  re_findall : nat -> string -> string -> string -> list string;
  ddgs_text : list Call -> string -> nat -> option (list SearchResult);
  brave_get : list Call -> string -> nat -> option (nat * option (list BraveItem));
  requests_get : list Call -> string -> option (nat * string);
  soup_get_text : string -> option string
}.

(** ** State monad over [World] *)

Definition St (A : Type) : Type := World -> A * World.

Definition ret {A : Type} (a : A) : St A := fun w => (a, w).

Definition bind {A B : Type} (c : St A) (k : A -> St B) : St B :=
  fun w => let '(a, w') := c w in k a w'.

Notation "'let*' x := c 'in' k" := (bind c (fun x => k))
  (at level 10, x name, c at level 100, k at level 200).
Notation "c >> k" := (bind c (fun _ => k))
  (at level 100, k at level 200, right associativity).

Definition tell (r : LogRecord) : St unit := fun w =>
  (tt, {| cache_search := cache_search w; cache_page := cache_page w;
          calls := calls w; log := log w ++ [r] |}).

Definition record_call (c : Call) : St unit := fun w =>
  (tt, {| cache_search := cache_search w; cache_page := cache_page w;
          calls := calls w ++ [c]; log := log w |}).

Definition store_search (key : string) (v : list SearchResult) : St unit := fun w =>
  (tt, {| cache_search := <[key := v]> (cache_search w); cache_page := cache_page w;
          calls := calls w; log := log w |}).

Definition store_page (key : string) (v : string) : St unit := fun w =>
  (tt, {| cache_search := cache_search w; cache_page := <[key := v]> (cache_page w);
          calls := calls w; log := log w |}).

Definition get_world : St World := fun w => (w, w).

(** The queries the loop of [search] has run, read off the log. *)
Definition issued_queries (w : World) : list string :=
  flat_map (fun r => match r with RunningQuery q => [q] | _ => [] end) (log w).

(** A computation that runs no query of its own. *)
Definition runs_no_query {A : Type} (c : St A) : Prop :=
  forall w, issued_queries (snd (c w)) = issued_queries w.

Section Pipeline.

Context {env : Env}.

(** [cache_key]: the MD5 digest of the arguments joined by a bar. *)
Definition cache_key (args : list string) : string :=
  md5_hexdigest (PyStr.join "|" args).

(** ** Search aggregator *)

Definition search_duckduckgo (query : string) (max_results : nat)
    : St (list SearchResult) :=
  let key := cache_key ["ddg"; query] in
  let* w := get_world in
  match cache_search w !! key with
  | Some cached => tell (CacheHitDdg query) >> ret cached
  | None =>
      record_call (DdgText query max_results) >>
      match ddgs_text (calls w) query max_results with
      | Some results => store_search key results >> ret results
      | None => tell DdgFailed >> ret []
      end
  end.

Definition brave_result (item : BraveItem) : SearchResult :=
  {| res_title := item_title item;
     res_href := item_url item;
     res_url := None;
     res_body := item_description item |}.

Definition search_brave (query : string) (max_results : nat)
    : St (list SearchResult) :=
  if negb USE_BRAVE then ret []
  else
    let key := cache_key ["brave"; query] in
    let* w := get_world in
    match cache_search w !! key with
    | Some cached => tell (CacheHitBrave query) >> ret cached
    | None =>
        record_call (BraveGet query max_results) >>
        match brave_get (calls w) query max_results with
        | Some (status_code, payload) =>
            if (status_code =? 200)%nat then
              match payload with
              | Some items =>
                  let results := List.map brave_result items in
                  store_search key results >> ret results
              | None => tell BraveException >> ret []
              end
            else tell (BraveError status_code) >> ret []
        | None => tell BraveException >> ret []
        end
    end.

(** [r.get("href") or r.get("url")]. *)
Definition result_url (r : SearchResult) : option string :=
  py_or (res_href r) (res_url r).

(** Lines 125-132: keep a result when it has a URL not seen before. *)
Fixpoint unique_from (seen : gset string) (results : list SearchResult)
    : list SearchResult :=
  match results with
  | [] => []
  | r :: rest =>
      match result_url r with
      | Some url =>
          if PyStr.nonempty url && negb (bool_decide (url ∈ seen))
          then r :: unique_from ({[url]} ∪ seen) rest
          else unique_from seen rest
      | None => unique_from seen rest
      end
  end.

Definition search_all_engines (query : string) : St (list SearchResult) :=
  let* primary := search_duckduckgo query 20 in
  let* secondary := (if USE_BRAVE then search_brave query 20 else ret []) in
  ret (unique_from ∅ (primary ++ secondary)).

(** ** Page fetcher *)

Definition fetch_page_text (url : string) (max_chars : nat) : St string :=
  let key := cache_key ["page"; url] in
  let* w := get_world in
  match cache_page w !! key with
  | Some cached => tell (CacheHitPage url) >> ret cached
  | None =>
      record_call (PageGet url) >>
      match requests_get (calls w) url with
      | Some (status_code, html) =>
          if (status_code =? 200)%nat then
            match soup_get_text html with
            | Some text =>
                let truncated := PyStr.take max_chars text in
                store_page key truncated >> ret truncated
            | None =>
                tell (FetchFailed url) >> store_page key "" >> ret ""
            end
          else store_page key "" >> ret ""
      | None => tell (FetchFailed url) >> store_page key "" >> ret ""
      end
  end.

(** ** Name extractor *)

(** The first element a partial function accepts: a [for] loop that
    returns from inside. *)
Fixpoint first_some {A B : Type} (f : A -> option B) (l : list A) : option B :=
  match l with
  | [] => None
  | x :: l' => match f x with Some y => Some y | None => first_some f l' end
  end.

Definition extract_name_with_ner (text company role : string) : option string :=
  if negb USE_NER then None
  else
    let company_lower := PyStr.lower company in
    let role_lower := PyStr.lower role in
    first_some
      (fun ent =>
         if String.eqb (label_ ent) "PERSON" then
           let sent := PyStr.lower (sent_text ent) in
           if PyStr.contains company_lower sent && PyStr.contains role_lower sent then
             let name := PyStr.strip (ent_text ent) in
             if is_likely_name name then Some name else None
           else None
         else None)
      (nlp_ents (PyStr.take 10000 text)).

(** The six patterns of the cascade, by position. *)
Definition patterns : list nat := [0; 1; 2; 3; 4; 5]%nat.

Definition extract_name_from_text (text company role : string) : option string :=
  let by_ner := if USE_NER then extract_name_with_ner text company role else None in
  if truthy by_ner then by_ner
  else
    first_some
      (fun pattern =>
         first_some
           (fun m =>
              let candidate := PyStr.strip m in
              if is_likely_name candidate then Some candidate else None)
           (re_findall pattern company role text))
      patterns.

Definition extract_name_from_snippet (snippet company role : string) : option string :=
  extract_name_from_text snippet company role.

(** ** The query loop of [search] *)

(** [name_candidates[name].append(c)] on the insertion-ordered mapping. *)
Fixpoint add_contribution (name : string) (c : Contribution)
    (name_candidates : Candidates) : Candidates :=
  match name_candidates with
  | [] => [(name, [c])]
  | (n, sources) :: rest =>
      if String.eqb n name then (n, (sources ++ [c])%list) :: rest
      else (n, sources) :: add_contribution name c rest
  end.

(** [name_candidates[name].append((url, source_credibility(url)))]. *)
Definition append_source (name url : string) (name_candidates : Candidates)
    : Res Candidates :=
  match source_credibility url with
  | Raise e => Raise e
  | Ok score => Ok (add_contribution name (url, score) name_candidates)
  end.

(** Lines 256-261: the page of a result is fetched and searched for a
    name. *)
Definition visit_page (company role url : string) (name_candidates : Candidates)
    : St (Res Candidates) :=
  let* page_text := fetch_page_text url 5000 in
  if PyStr.nonempty page_text then
    match extract_name_from_text page_text company role with
    | Some name =>
        if PyStr.nonempty name then
          tell (FoundInPage name url) >>
          ret (append_source name url name_candidates)
        else ret (Ok name_candidates)
    | None => ret (Ok name_candidates)
    end
  else ret (Ok name_candidates).

(** Lines 244-261: the body of the loop over the results of one query.  A
    name found in the snippet ends the iteration; otherwise the page is
    visited. *)
Definition visit_result (company role : string) (res : SearchResult)
    (name_candidates : Candidates) : St (Res Candidates) :=
  match result_url res with
  | None => ret (Ok name_candidates)
  | Some url =>
      if negb (PyStr.nonempty url) then ret (Ok name_candidates)
      else
        let from_snippet :=
          match res_body res with
          | Some snippet =>
              if PyStr.nonempty snippet
              then extract_name_from_snippet snippet company role
              else None
          | None => None
          end in
        match from_snippet with
        | Some name =>
            if PyStr.nonempty name then
              tell (FoundInSnippet name url) >>
              ret (append_source name url name_candidates)
            else visit_page company role url name_candidates
        | None => visit_page company role url name_candidates
        end
  end.

Fixpoint visit_results (company role : string) (results : list SearchResult)
    (name_candidates : Candidates) : St (Res Candidates) :=
  match results with
  | [] => ret (Ok name_candidates)
  | res :: rest =>
      let* r := visit_result company role res name_candidates in
      match r with
      | Raise e => ret (Raise e)
      | Ok name_candidates' => visit_results company role rest name_candidates'
      end
  end.

(** [sum(len(v) for v in name_candidates.values())]. *)
Definition total_contributions (name_candidates : Candidates) : nat :=
  fold_left Nat.add (List.map (fun item => length (snd item)) name_candidates) 0%nat.

(** Line 264. *)
Definition stop_condition (name_candidates : Candidates) : bool :=
  (2 <=? length name_candidates)%nat && (3 <=? total_contributions name_candidates)%nat.

(** Lines 240-265. *)
Fixpoint query_loop (company role : string) (queries : list string)
    (name_candidates : Candidates) : St (Res Candidates) :=
  match queries with
  | [] => ret (Ok name_candidates)
  | query :: rest =>
      tell (RunningQuery query) >>
      let* results := search_all_engines query in
      let* r := visit_results company role results name_candidates in
      match r with
      | Raise e => ret (Raise e)
      | Ok name_candidates' =>
          if stop_condition name_candidates' then ret (Ok name_candidates')
          else query_loop company role rest name_candidates'
      end
  end.

(** Lines 267-310, after the query loop. *)
Definition conclude (company role : string) (name_candidates : Candidates)
    : Res Response :=
  match name_candidates with
  | [] => Ok no_credible_source
  | _ :: _ =>
      match rank name_candidates with
      | Raise e => Raise e
      | Ok b => select_output company role b
      end
  end.

(** The body of [search] for the order [queries] in which the set of
    queries is iterated; an exception anywhere ends in the handler of
    lines 312-314. *)
Definition search_with (queries : list string) (company role : string)
    : St Response :=
  let* r := query_loop company role queries [] in
  match r with
  | Raise _ => tell Traceback >> ret internal_server_error
  | Ok name_candidates =>
      match conclude company role name_candidates with
      | Raise _ => tell Traceback >> ret internal_server_error
      | Ok response => ret response
      end
  end.

(** [search company role w response w']: a call of [search] in world [w]
    may return [response] and leave the world [w']. *)
Definition search (company role : string) (w : World)
    (response : Response) (w' : World) : Prop :=
  exists queries,
    build_queries company role queries /\
    search_with queries company role w = (response, w').

(** ** Observations on a run *)

(** The result lists [search_all_engines] hands to the loop, one per
    query the loop runs. *)
Fixpoint results_seen (company role : string) (queries : list string)
    (name_candidates : Candidates) (w : World) : list (list SearchResult) :=
  match queries with
  | [] => []
  | query :: rest =>
      let '(_, w0) := tell (RunningQuery query) w in
      let '(results, w1) := search_all_engines query w0 in
      results ::
      match visit_results company role results name_candidates w1 with
      | (Ok name_candidates', w2) =>
          if stop_condition name_candidates' then []
          else results_seen company role rest name_candidates' w2
      | (Raise _, _) => []
      end
  end.

End Pipeline.

(** ** Notions of the specification *)

(** Deduplication by URL as the specification words it: a result of the
    merged list is kept when it has a URL that no earlier result of the
    list has. *)
Definition has_url (r : SearchResult) : bool := truthy (result_url r).

Fixpoint first_occurrences (earlier results : list SearchResult)
    : list SearchResult :=
  match results with
  | [] => []
  | r :: rest =>
      if has_url r &&
         negb (existsb (fun r' => bool_decide (result_url r' = result_url r)) earlier)
      then r :: first_occurrences (earlier ++ [r])%list rest
      else first_occurrences (earlier ++ [r])%list rest
  end.

(** What the query loop maintains about the accumulated candidates: names
    are not empty, every name has a contribution, and every score is one
    the credibility scorer gives. *)
Definition well_formed (name_candidates : Candidates) : Prop :=
  Forall (fun item =>
            PyStr.nonempty (fst item) = true /\
            snd item <> [] /\
            Forall (fun c => (0.6 <= snd c)%Q) (snd item))
         name_candidates.

(** The scoring loop has selected a winner. *)
Definition chosen (b : Best) : Prop :=
  exists name,
    best_name b = Some name /\ PyStr.nonempty name = true /\ (0 < best_score b)%Q.

(** ** Environments used to exercise the model *)

(** Every provider answers with no result. *)
Definition silent_env : Env :=
  {| USE_NER := false;
     USE_BRAVE := true;
     md5_hexdigest := fun s => s;
     nlp_ents := fun _ => [];
     re_findall := fun _ _ _ _ => [];
     ddgs_text := fun _ _ _ => Some [];
     brave_get := fun _ _ _ => Some (200%nat, Some []);
     requests_get := fun _ _ => None;
     soup_get_text := fun s => Some s |}.

(** A small web: the primary provider knows three pages for every query,
    the last pattern of the cascade finds the name a text ends with, and
    one page must be fetched because its snippet is empty. *)
Definition demo_results : list SearchResult :=
  [ {| res_title := Some "Jane Doe - Acme";
       res_href := Some "https://www.linkedin.com/in/jane-doe";
       res_url := None;
       res_body := Some "CEO: Jane Doe" |};
    {| res_title := Some "Acme leadership";
       res_href := Some "https://acme.example/team";
       res_url := None;
       res_body := Some "" |};
    {| res_title := Some "Acme";
       res_href := Some "https://en.wikipedia.org/wiki/Acme";
       res_url := None;
       res_body := Some "CEO: Jane Doe" |} ].

Definition demo_env : Env :=
  {| USE_NER := false;
     USE_BRAVE := false;
     md5_hexdigest := fun s => s;
     nlp_ents := fun _ => [];
     re_findall := fun pattern _ _ text =>
       if (pattern =? 5)%nat && String.prefix "CEO: " text
       then [PyStr.drop 5 text] else [];
     ddgs_text := fun _ _ _ => Some demo_results;
     brave_get := fun _ _ _ => None;
     requests_get := fun _ url =>
       if String.eqb url "https://acme.example/team"
       then Some (200%nat, "CEO: Rita Stone") else None;
     soup_get_text := fun s => Some s |}.

(** ** The documented ranking example on IEEE doubles *)

Module Binary64.

Definition of_len {A : Type} (l : list A) : float :=
  PrimFloat.of_uint63 (Uint63.of_Z (Z.of_nat (length l))).

Definition py_sum (l : list float) : float := fold_left PrimFloat.add l 0%float.

Definition py_min (x y : float) : float := if PrimFloat.ltb y x then y else x.

(** Lines 276-288 on doubles. *)
Definition final_score (name : string) (sources : list (string * float))
    (best_url : string) : Res float :=
  match sources with
  | [] => Raise ZeroDivisionError
  | _ :: _ =>
      let base_avg := (py_sum (List.map snd sources) / of_len sources)%float in
      let multiplier := (1.0 + (of_len sources * 0.1))%float in
      let multiplier := if generic_name name then (multiplier * 0.9)%float else multiplier in
      let multiplier := if mentions_news best_url then (multiplier * 1.05)%float else multiplier in
      Ok (py_min (base_avg * multiplier)%float 1.0%float)
  end.




End Binary64.

(** ** Further notions used by the properties of Part II *)

(** The keys of [aliases] that an upper-cased role can equal. *)
Definition acronym_keys : list string := ["CEO"; "CTO"; "CFO"; "CMO"; "COO"].

(** Some character of a string satisfies a test. *)
Fixpoint some_char (p : ascii -> bool) (s : string) : bool :=
  match s with
  | EmptyString => false
  | String c s' => p c || some_char p s'
  end.

(** Characters of a plain host: printable ASCII other than the delimiters
    [/ ? #] and the square brackets. *)
Definition host_char (c : ascii) : bool :=
  PyStr.in_range 33 126 c && negb (UrlParse.delimiter c) &&
  negb (Ascii.eqb c "["%char) && negb (Ascii.eqb c "]"%char).

(** Every accumulated name has passed the name-shape filter. *)
Definition likely_names (name_candidates : Candidates) : Prop :=
  Forall (fun item => is_likely_name (fst item) = true) name_candidates.

(** Every recorded contribution pairs a non-empty URL with the score the
    credibility scorer gives it. *)
Definition scored_by_credibility (name_candidates : Candidates) : Prop :=
  Forall (fun item =>
            Forall (fun c => PyStr.nonempty (fst c) = true /\
                             source_credibility (fst c) = Ok (snd c))
                   (snd item))
         name_candidates.

(** A scheme that [urlsplit] recognises: a letter, then letters, digits,
    [+], [-] and [.]. *)
Definition valid_scheme (s : string) : bool :=
  match s with
  | EmptyString => false
  | String c _ => PyStr.isalpha c && all_chars UrlParse.scheme_char s
  end.

(** What may follow the host: nothing, or a path, query or fragment. *)
Definition starts_path (rest : string) : bool :=
  match rest with
  | EmptyString => true
  | String c _ => UrlParse.delimiter c
  end.

(** ** Observations on the world *)




(** No cached page text is longer than [n] characters. *)
Definition page_cache_bounded (n : nat) (w : World) : Prop :=
  forall key text, cache_page w !! key = Some text -> (String.length text <= n)%nat.

Section Observations.

Context {env : Env}.

(** The cache keys of the pages fetched so far, oldest first. *)
Definition page_keys_fetched (w : World) : list string :=
  flat_map (fun c => match c with
                     | PageGet url => [cache_key ["page"; url]]
                     | _ => []
                     end)
           (calls w).

(** Every page fetched so far has an entry in the page cache, and no key
    was fetched twice. *)
Definition pages_fetched_once (w : World) : Prop :=
  List.NoDup (page_keys_fetched w) /\
  forall key, In key (page_keys_fetched w) -> cache_page w !! key <> None.

End Observations.

(** ** Further environments used to exercise the model *)

(** The primary provider fails on its first call and answers afterwards;
    no page can be fetched. *)
Definition flaky_env : Env :=
  {| USE_NER := false;
     USE_BRAVE := true;
     md5_hexdigest := fun s => s;
     nlp_ents := fun _ => [];
     re_findall := fun _ _ _ _ => [];
     ddgs_text := fun history _ _ =>
       match history with [] => None | _ :: _ => Some demo_results end;
     brave_get := fun _ _ _ => Some (503%nat, None);
     requests_get := fun _ _ => None;
     soup_get_text := fun s => Some s |}.

(** The NER model is present and finds an organisation and a person. *)
Definition ner_env : Env :=
  {| USE_NER := true;
     USE_BRAVE := false;
     md5_hexdigest := fun s => s;
     nlp_ents := fun _ =>
       [ {| label_ := "ORG"; ent_text := "Acme";
            sent_text := "Rita Stone is the CEO of Acme." |};
         {| label_ := "PERSON"; ent_text := " Rita Stone ";
            sent_text := "Rita Stone is the CEO of Acme." |} ];
     re_findall := fun _ _ _ _ => ["Jane Doe"];
     ddgs_text := fun _ _ _ => Some [];
     brave_get := fun _ _ _ => None;
     requests_get := fun _ _ => None;
     soup_get_text := fun s => Some s |}.


(* ===================================================================== *)
(** * Part II: properties                                                  *)
(* ===================================================================== *)

(** ** Strings *)

Module PyStrFacts.
Import PyStr.

Lemma all_chars_rev_onto p acc s :
  all_chars p (rev_onto acc s) = all_chars p acc && all_chars p s.
Proof.
  revert acc. induction s as [|c s IH]; intros acc; simpl.
  - now rewrite andb_true_r.
  - rewrite IH. simpl. destruct (p c), (all_chars p acc); simpl; auto.
Qed.

Lemma all_chars_rev p s : all_chars p (rev s) = all_chars p s.
Proof. unfold rev. now rewrite all_chars_rev_onto. Qed.

Lemma nonempty_rev_onto acc s :
  nonempty (rev_onto acc s) = nonempty acc || nonempty s.
Proof.
  revert acc. induction s as [|c s IH]; intros acc; simpl.
  - now rewrite orb_false_r.
  - rewrite IH. simpl. now rewrite orb_true_r.
Qed.

Lemma nonempty_rev s : nonempty (rev s) = nonempty s.
Proof. unfold rev. now rewrite nonempty_rev_onto. Qed.

Lemma split_from_words word s :
  all_chars solid word = true ->
  Forall is_word (split_from word s).
Proof.
  revert word. induction s as [|c s IH]; intros word Hw; simpl.
  - destruct (nonempty word) eqn:E; constructor; [|constructor].
    split; [now rewrite nonempty_rev | now rewrite all_chars_rev].
  - destruct (isspace c) eqn:Ec.
    + destruct (nonempty word) eqn:E.
      * constructor; [|now apply IH].
        split; [now rewrite nonempty_rev | now rewrite all_chars_rev].
      * now apply IH.
    + apply IH. simpl. unfold solid at 1. now rewrite Ec.
Qed.

Lemma split_words s : Forall is_word (split s).
Proof. apply split_from_words. reflexivity. Qed.

Lemma length_append (a b : string) :
  String.length (a ++ b) = (String.length a + String.length b)%nat.
Proof. induction a as [|c a IH]; simpl; [reflexivity | now rewrite IH]. Qed.

Lemma mem_In s xs : mem s xs = true <-> In s xs.
Proof.
  unfold mem. rewrite existsb_exists. split.
  - intros (x & Hx & E). apply String.eqb_eq in E. now subst.
  - intros H. exists s. split; [assumption | apply String.eqb_refl].
Qed.

Lemma mem_not_In s xs : mem s xs = false <-> ~ In s xs.
Proof.
  rewrite <- mem_In. destruct (mem s xs); split; intros; congruence.
Qed.

End PyStrFacts.

(** ** Name-shape filter *)

Lemma newline_is_space c : Ascii.eqb c "010"%char = true -> PyStr.isspace c = true.
Proof. intros H. apply Ascii.eqb_eq in H. now subst. Qed.

(** On a string without white space the regular expression accepts exactly
    the capitalised words: its [$] has no line feed to stop at. *)
Lemma shape_tail_solid s :
  all_chars solid s = true -> shape_tail s = all_chars name_char s.
Proof.
  induction s as [|c s IH]; simpl; [reflexivity|].
  intros H. apply andb_true_iff in H as [Hc Hs]. rewrite (IH Hs).
  destruct (Ascii.eqb c "010"%char) eqn:E.
  - apply newline_is_space in E. unfold solid in Hc.
    rewrite E in Hc. discriminate.
  - simpl. now rewrite orb_false_r.
Qed.

Lemma re_match_word w :
  is_word w -> re_match_name_shape w = capitalised_word w.
Proof.
  intros [_ Hs]. destruct w as [|c s]; [reflexivity|]. simpl in *.
  apply andb_true_iff in Hs as [_ Hs]. now rewrite (shape_tail_solid _ Hs).
Qed.

Lemma forallb_shape_words words :
  Forall is_word words ->
  forallb re_match_name_shape words = forallb capitalised_word words.
Proof.
  induction 1 as [|w words Hw _ IH]; simpl; [reflexivity|].
  now rewrite (re_match_word _ Hw), IH.
Qed.

(** C5. [is_likely_name] accepts a string exactly when it has at least two
    white-space separated words, every word is an upper-case letter followed
    by letters and periods only, and no word is in the blacklist.  It accepts
    "John Smith", rejects "Chief Officer" (both words have the shape, both
    are blacklisted) and rejects "O'Brien Smith" (the first word fails the
    shape). *)
Theorem is_likely_name_spec :
  (forall candidate,
      is_likely_name candidate = true <->
      (2 <= length (PyStr.split candidate))%nat /\
      Forall (fun w => capitalised_word w = true) (PyStr.split candidate) /\
      Forall (fun w => ~ In w blacklist) (PyStr.split candidate)) /\
  is_likely_name "John Smith" = true /\
  (is_likely_name "Chief Officer" = false /\
   forallb re_match_name_shape (PyStr.split "Chief Officer") = true /\
   In "Chief" blacklist /\ In "Officer" blacklist) /\
  (is_likely_name "O'Brien Smith" = false /\
   PyStr.split "O'Brien Smith" = ["O'Brien"; "Smith"] /\
   re_match_name_shape "O'Brien" = false /\
   existsb (fun w => PyStr.mem w blacklist) (PyStr.split "O'Brien Smith") = false).
Proof.
  split; [|split; [reflexivity|split]].
  - intros candidate. unfold is_likely_name.
    rewrite (forallb_shape_words _ (PyStrFacts.split_words candidate)).
    set (words := PyStr.split candidate).
    assert (forallb capitalised_word words = true <->
            Forall (fun w => capitalised_word w = true) words) as Hshape_iff.
    { rewrite forallb_forall. symmetry. apply List.Forall_forall. }
    destruct (Nat.ltb_spec (length words) 2) as [Hlt|Hge].
    { split; [discriminate | intros [H _]; lia]. }
    destruct (forallb capitalised_word words) eqn:Hshape; cbn [negb].
    2:{ split; [discriminate|]. intros (_ & H & _).
        apply Hshape_iff in H. discriminate. }
    destruct (existsb (fun w => PyStr.mem w blacklist) words) eqn:Hbl.
    + split; [discriminate|]. intros (_ & _ & H). exfalso.
      apply existsb_exists in Hbl as (w & Hin & Hmem).
      rewrite List.Forall_forall in H. apply (H w Hin).
      now apply PyStrFacts.mem_In.
    + split; [|reflexivity]. intros _.
      split; [assumption|]. split; [now apply Hshape_iff|].
      apply List.Forall_forall. intros w Hin Hbad.
      apply PyStrFacts.mem_In in Hbad.
      assert (existsb (fun w => PyStr.mem w blacklist) words = true) as C.
      { apply existsb_exists. now exists w. }
      congruence.
  - repeat split; try reflexivity; vm_compute; tauto.
  - repeat split; reflexivity.
Qed.

(** ** Credibility scorer *)

Open Scope Q_scope.

(** Every score of the cascade is one of the five weights. *)
Lemma credibility_of_domain_values domain :
  In (credibility_of_domain domain) [0.95; 0.9; 0.85; 0.8; 0.6].
Proof.
  unfold credibility_of_domain.
  repeat match goal with |- context [if ?b then _ else _] => destruct b end;
    simpl; tauto.
Qed.

Lemma credibility_of_domain_floor domain : 0.6 <= credibility_of_domain domain.
Proof.
  pose proof (credibility_of_domain_values domain) as H. simpl in H.
  repeat destruct H as [<-|H]; try discriminate; try contradiction.
Qed.

Lemma source_credibility_floor url score :
  source_credibility url = Ok score -> 0.6 <= score.
Proof.
  unfold source_credibility. destruct (UrlParse.netloc url); [|discriminate].
  intros [= <-]. apply credibility_of_domain_floor.
Qed.




Close Scope Q_scope.

(** ** Query builder *)

Lemma flat_map_after_map {A B C : Type} (g : A -> B) (f : B -> list C) (l : list A) :
  flat_map f (List.map g l) = flat_map (fun x => f (g x)) l.
Proof. induction l as [|x l IH]; simpl; [reflexivity | now rewrite IH]. Qed.

(** The variants are the role followed by its aliases. *)
Lemma role_variants_known role : role_variants role = role :: known_aliases role.
Proof.
  unfold role_variants, known_aliases.
  destruct (PyStr.contains "&" role).
  - now rewrite flat_map_after_map.
  - now rewrite app_nil_r.
Qed.

Lemma templates_length company r : length (templates company r) = 5%nat.
Proof. reflexivity. Qed.

(** The five templates of one variant differ already in length. *)
Lemma templates_NoDup company r : List.NoDup (templates company r).
Proof.
  apply (NoDup_map_inv String.length). unfold templates.
  cbn [List.map]. rewrite !PyStrFacts.length_append. cbn [String.length].
  set (c := String.length company). set (n := String.length r).
  repeat constructor; cbn [In]; lia.
Qed.

Lemma flat_map_length_const {A B : Type} (f : A -> list B) (k : nat) (l : list A) :
  (forall x, length (f x) = k) -> length (flat_map f l) = (k * length l)%nat.
Proof.
  intros Hk. induction l as [|x l IH]; simpl; [lia|].
  rewrite List.length_app, IH, Hk. lia.
Qed.

Lemma query_list_length company role :
  length (query_list company role) = (5 * length (role_variants role))%nat.
Proof. apply flat_map_length_const, templates_length. Qed.

Lemma dedup_In q l : In q (dedup l) <-> In q l.
Proof.
  induction l as [|x l IH]; simpl; [tauto|].
  destruct (PyStr.mem x l) eqn:E.
  - rewrite IH. split; [tauto|]. intros [<-|H]; [|assumption].
    now apply PyStrFacts.mem_In.
  - simpl. now rewrite IH.
Qed.

Lemma dedup_NoDup l : List.NoDup (dedup l).
Proof.
  induction l as [|x l IH]; simpl; [constructor|].
  destruct (PyStr.mem x l) eqn:E; [assumption|].
  constructor; [|assumption]. rewrite dedup_In.
  now apply PyStrFacts.mem_not_In.
Qed.

Lemma dedup_length l : (length (dedup l) <= length l)%nat.
Proof.
  induction l as [|x l IH]; simpl; [lia|].
  destruct (PyStr.mem x l); simpl; lia.
Qed.

(** [build_queries] always has a result. *)
Lemma build_queries_some_ok company role :
  build_queries company role (build_queries_some company role).
Proof.
  split; [apply dedup_NoDup | intros q; apply dedup_In].
Qed.

(** C6. Every list [build_queries] can return has no duplicate, at least 5
    entries and at most 5 * (1 + N), where N counts the alias entries found
    for the upper-cased role and for each of its ["&"]-separated parts; the
    bound also holds when N counts each alias once. *)
Theorem build_queries_size company role qs :
  build_queries company role qs ->
  List.NoDup qs /\
  (5 <= length qs)%nat /\
  (length qs <= 5 * (1 + length (known_aliases role)))%nat /\
  (length qs <= 5 * (1 + length (dedup (known_aliases role))))%nat.
Proof.
  intros [Hnd Hin]. split; [assumption|]. split; [|split].
  - rewrite <- (templates_length company role).
    apply NoDup_incl_length; [apply templates_NoDup|].
    intros q Hq. apply Hin. unfold query_list.
    rewrite role_variants_known. cbn [flat_map]. apply in_or_app. now left.
  - transitivity (length (query_list company role)).
    + apply NoDup_incl_length; [assumption|]. intros q Hq. now apply Hin.
    + rewrite query_list_length, role_variants_known. simpl. lia.
  - transitivity (length (flat_map (templates company)
                                   (role :: dedup (known_aliases role)))).
    + apply NoDup_incl_length; [assumption|]. intros q Hq.
      apply Hin in Hq. unfold query_list in Hq.
      rewrite role_variants_known in Hq.
      apply in_flat_map in Hq as (r & Hr & Hq). apply in_flat_map.
      exists r. split; [|assumption].
      destruct Hr as [<-|Hr]; [now left | right; now apply dedup_In].
    + rewrite (flat_map_length_const _ 5); [simpl; lia | apply templates_length].
Qed.

Lemma build_queries_size_witness :
  List.NoDup (build_queries_some "Acme" "CEO") /\
  (5 <= length (build_queries_some "Acme" "CEO"))%nat /\
  (length (build_queries_some "Acme" "CEO") <= 5 * (1 + length (known_aliases "CEO")))%nat /\
  (length (build_queries_some "Acme" "CEO")
   <= 5 * (1 + length (dedup (known_aliases "CEO"))))%nat.
Proof.
  exact (build_queries_size "Acme" "CEO" (build_queries_some "Acme" "CEO")
           (build_queries_some_ok "Acme" "CEO")).
Defined.

(** ** Ranking engine *)

Open Scope Q_scope.

Lemma fold_left_Qplus l a : fold_left Qplus l a == a + fold_right Qplus 0 l.
Proof.
  revert a. induction l as [|x l IH]; intros a; simpl.
  - ring.
  - rewrite IH. ring.
Qed.

Lemma py_sum_fold_right l : py_sum l == fold_right Qplus 0 l.
Proof. unfold py_sum. rewrite fold_left_Qplus. ring. Qed.

Lemma Qltb_lt x y : Qltb x y = true <-> x < y.
Proof.
  unfold Qltb. rewrite negb_true_iff. split.
  - intros H. apply Qnot_le_lt. intros Hle. apply Qle_bool_iff in Hle. congruence.
  - intros H. destruct (Qle_bool y x) eqn:E; [|reflexivity].
    apply Qle_bool_iff in E. exfalso. exact (Qlt_not_le _ _ H E).
Qed.

Lemma Qltb_ge x y : Qltb x y = false <-> y <= x.
Proof.
  unfold Qltb. rewrite negb_false_iff. apply Qle_bool_iff.
Qed.

Lemma py_min_Qmin x y : py_min x y == Qmin x y.
Proof.
  unfold py_min. destruct (Qltb y x) eqn:E.
  - apply Qltb_lt in E. symmetry. apply Q.min_r. now apply Qlt_le_weak.
  - apply Qltb_ge in E. symmetry. now apply Q.min_l.
Qed.


(** The score of a candidate with at least one contribution is the score
    of the specification. *)
Lemma final_score_spec name contribs carried_url :
  contribs <> [] ->
  exists score,
    final_score name contribs carried_url = Ok score /\
    score == spec_score name contribs carried_url.
Proof.
  intros Hne. destruct contribs as [|c contribs]; [congruence|].
  eexists. split; [reflexivity|].
  unfold spec_score, spec_multiplier, mean, of_len, Contribution in *.
  rewrite py_min_Qmin, !length_map.
  apply Q.min_compat; [|reflexivity].
  rewrite py_sum_fold_right.
  generalize (fold_right Qplus 0 (List.map snd (c :: contribs))).
  generalize (inject_Z (Z.of_nat (length (c :: contribs)))).
  intros n total. unfold Qdiv.
  destruct (generic_name name), (mentions_news carried_url); ring.
Qed.

Lemma py_max_by_score_In c contribs :
  exists top, py_max_by_score (c :: contribs) = Ok top /\ In top (c :: contribs).
Proof.
  unfold py_max_by_score. eexists. split; [reflexivity|].
  revert c. induction contribs as [|x l IH]; intros c; simpl; [now left|].
  destruct (Qltb (snd c) (snd x)).
  - right. apply IH.
  - destruct (IH c) as [H|H]; [now left | right; now right].
Qed.

(** One iteration scores the candidate by the formula, against the URL
    carried over from the best candidate so far, and replaces the best one
    only on a strictly greater score. *)
Lemma rank_step_spec b name contribs :
  contribs <> [] ->
  exists score top,
    final_score name contribs (best_url b) = Ok score /\
    score == spec_score name contribs (best_url b) /\
    py_max_by_score contribs = Ok top /\
    rank_step b (name, contribs) =
      Ok (if Qltb (best_score b) score
          then {| best_name := Some name; best_score := score; best_url := fst top |}
          else b).
Proof.
  intros Hne.
  destruct (final_score_spec name contribs (best_url b) Hne) as (score & Hs & Heq).
  destruct contribs as [|c contribs]; [congruence|].
  destruct (py_max_by_score_In c contribs) as (top & Htop & _).
  exists score, top. repeat split; try assumption.
  unfold rank_step. rewrite Hs, Htop. now destruct (Qltb (best_score b) score).
Qed.







Close Scope Q_scope.

(** ** [round] and the confidence *)



(** ** The scoring loop selects a winner *)

Open Scope Q_scope.

Lemma sum_scores_positive (l : list Q) :
  l <> [] -> Forall (fun x => 0.6 <= x) l -> 0 < fold_right Qplus 0 l.
Proof.
  intros Hne Hall. destruct Hall as [|x l Hx Hl]; [congruence|]. clear Hne.
  assert (0 <= fold_right Qplus 0 l) as Hrest.
  { induction Hl as [|y l Hy _ IH]; simpl; [discriminate|]. lra. }
  simpl. lra.
Qed.

Lemma of_len_positive {A : Type} (l : list A) : l <> [] -> 0 < of_len l.
Proof.
  intros Hne. destruct l as [|x l]; [congruence|].
  unfold of_len, Qlt. simpl. lia.
Qed.

Lemma spec_multiplier_positive name n carried_url :
  0 < spec_multiplier name n carried_url.
Proof.
  unfold spec_multiplier.
  assert (0 <= inject_Z (Z.of_nat n)) as Hn.
  { unfold Qle. simpl. lia. }
  repeat apply Qmult_lt_0_compat.
  - lra.
  - now destruct (generic_name name).
  - now destruct (mentions_news carried_url).
Qed.

Lemma spec_score_positive name contribs carried_url :
  contribs <> [] ->
  Forall (fun c => 0.6 <= snd c) contribs ->
  0 < spec_score name contribs carried_url.
Proof.
  intros Hne Hall. unfold spec_score. apply Q.min_glb_lt; [|reflexivity].
  apply Qmult_lt_0_compat; [|apply spec_multiplier_positive].
  unfold mean. apply Qlt_shift_div_l.
  - apply of_len_positive. now destruct contribs.
  - rewrite Qmult_0_l. apply sum_scores_positive.
    + now destruct contribs.
    + clear Hne. induction Hall; simpl; constructor; assumption.
Qed.


Lemma final_score_positive name contribs carried_url :
  contribs <> [] ->
  Forall (fun c => 0.6 <= snd c) contribs ->
  exists score, final_score name contribs carried_url = Ok score /\ 0 < score.
Proof.
  intros Hne Hall.
  destruct (final_score_spec name contribs carried_url Hne) as (score & Hs & Heq).
  exists score. split; [assumption|]. rewrite Heq.
  now apply spec_score_positive.
Qed.

(** From the initial state or from a selected winner, a well-formed
    candidate leaves a selected winner. *)
Lemma rank_step_chosen b name contribs :
  PyStr.nonempty name = true ->
  contribs <> [] ->
  Forall (fun c => 0.6 <= snd c) contribs ->
  b = initial_best \/ chosen b ->
  exists b', rank_step b (name, contribs) = Ok b' /\ chosen b'.
Proof.
  intros Hname Hne Hall Hb.
  destruct (rank_step_spec b name contribs Hne) as (score & top & Hs & _ & _ & Hstep).
  destruct (final_score_positive name contribs (best_url b) Hne Hall)
    as (score' & Hs' & Hpos).
  assert (score' = score) as -> by congruence.
  eexists. split; [exact Hstep|].
  destruct (Qltb (best_score b) score) eqn:E.
  - exists name. cbn. auto.
  - destruct Hb as [->|Hb]; [|assumption].
    apply Qltb_ge in E. cbn in E. exfalso. lra.
Qed.

Lemma rank_from_chosen items :
  well_formed items ->
  forall b, chosen b -> exists b', rank_from b items = Ok b' /\ chosen b'.
Proof.
  induction 1 as [|[name contribs] items (Hname & Hne & Hall) _ IH]; intros b Hb.
  - exists b. now split.
  - cbn [rank_from].
    destruct (rank_step_chosen b name contribs Hname Hne Hall (or_intror Hb))
      as (b1 & -> & Hb1).
    now apply IH.
Qed.

Lemma rank_chosen name_candidates :
  well_formed name_candidates ->
  name_candidates <> [] ->
  exists b, rank name_candidates = Ok b /\ chosen b.
Proof.
  intros Hwf Hne. destruct name_candidates as [|[name contribs] items]; [congruence|].
  apply Forall_cons_iff in Hwf as [(Hname & Hc & Hall) Hwf]. cbn [fst snd] in *.
  unfold rank. cbn [rank_from].
  destruct (rank_step_chosen initial_best name contribs Hname Hc Hall (or_introl eq_refl))
    as (b1 & Hstep & Hb1).
  unfold Contribution in *. rewrite Hstep.
  now apply rank_from_chosen.
Qed.




Close Scope Q_scope.

(** ** Candidates *)

Lemma add_contribution_well_formed name c name_candidates :
  PyStr.nonempty name = true ->
  (0.6 <= snd c)%Q ->
  well_formed name_candidates ->
  well_formed (add_contribution name c name_candidates).
Proof.
  intros Hname Hc. induction 1 as [|[n sources] rest (Hn & Hne & Hall) Hrest IH];
    cbn [add_contribution].
  - constructor; [|constructor]. cbn. repeat split; auto; try discriminate.
  - destruct (String.eqb n name).
    + constructor; [|assumption]. cbn in *. repeat split; auto.
      * now destruct sources.
      * apply Forall_app. split; [assumption|]. now constructor.
    + constructor; [|assumption]. cbn. auto.
Qed.

Lemma append_source_well_formed name url name_candidates name_candidates' :
  PyStr.nonempty name = true ->
  append_source name url name_candidates = Ok name_candidates' ->
  well_formed name_candidates ->
  well_formed name_candidates'.
Proof.
  unfold append_source. intros Hname.
  destruct (source_credibility url) as [score|] eqn:Hs; [|discriminate].
  intros [= <-] Hwf. apply add_contribution_well_formed; try assumption.
  cbn. exact (source_credibility_floor _ _ Hs).
Qed.

Lemma add_contribution_nonempty name c name_candidates :
  add_contribution name c name_candidates <> [].
Proof.
  destruct name_candidates as [|[n sources] rest]; cbn; [discriminate|].
  destruct (String.eqb n name); discriminate.
Qed.

(** The names of the mapping stay pairwise different. *)
Lemma add_contribution_names name c name_candidates :
  List.NoDup (List.map fst name_candidates) ->
  List.NoDup (List.map fst (add_contribution name c name_candidates)) /\
  forall n, In n (List.map fst (add_contribution name c name_candidates)) <->
            n = name \/ In n (List.map fst name_candidates).
Proof.
  induction name_candidates as [|[n0 sources] rest IH]; cbn [add_contribution List.map fst].
  - intros _. split; [repeat constructor; cbn; tauto | cbn; intuition auto].
  - intros Hnd. inversion Hnd as [|? ? Hnotin Hnd']; subst.
    destruct (String.eqb_spec n0 name) as [->|Hneq]; cbn [List.map fst].
    + split; [assumption|]. cbn. intuition auto.
    + destruct (IH Hnd') as [IH1 IH2]. split.
      * constructor; [|assumption]. rewrite IH2. intros [->|H]; auto.
      * intros n. cbn [In]. rewrite IH2. intuition auto.
Qed.

(** ** Computations that run no query *)

Lemma issued_queries_tell r w :
  issued_queries (snd (tell r w)) =
  (issued_queries w ++ match r with RunningQuery q => [q] | _ => [] end)%list.
Proof.
  unfold issued_queries, tell. cbn [snd log].
  rewrite flat_map_app. cbn [flat_map]. now rewrite app_nil_r.
Qed.

Lemma runs_no_query_ret {A : Type} (a : A) : runs_no_query (ret a).
Proof. intros w. reflexivity. Qed.

Lemma runs_no_query_bind {A B : Type} (c : St A) (k : A -> St B) :
  runs_no_query c -> (forall a, runs_no_query (k a)) -> runs_no_query (bind c k).
Proof.
  intros Hc Hk w. unfold bind. specialize (Hc w).
  destruct (c w) as [a w1]. cbn [snd] in Hc. now rewrite Hk.
Qed.

Lemma runs_no_query_tell r :
  (forall q, r <> RunningQuery q) -> runs_no_query (tell r).
Proof.
  intros Hr w. rewrite issued_queries_tell.
  destruct r; try apply app_nil_r. now destruct (Hr query).
Qed.

Lemma runs_no_query_record_call c : runs_no_query (record_call c).
Proof. intros w. reflexivity. Qed.

Lemma runs_no_query_store_search key v : runs_no_query (store_search key v).
Proof. intros w. reflexivity. Qed.

Lemma runs_no_query_store_page key v : runs_no_query (store_page key v).
Proof. intros w. reflexivity. Qed.

Lemma runs_no_query_get_world : runs_no_query get_world.
Proof. intros w. reflexivity. Qed.

(** Decomposes a computation built from the operations above. *)
Ltac no_query :=
  repeat first
    [ apply runs_no_query_ret
    | apply runs_no_query_get_world
    | apply runs_no_query_record_call
    | apply runs_no_query_store_search
    | apply runs_no_query_store_page
    | (apply runs_no_query_tell; intros ?; discriminate)
    | (apply runs_no_query_bind; [|intros ?])
    | match goal with
      | |- runs_no_query (match ?x with _ => _ end) => destruct x
      | |- runs_no_query (if ?b then _ else _) => destruct b
      | |- runs_no_query (let '(_, _) := ?x in _) => destruct x
      end ].

Section PipelineFacts.

Context {env : Env}.

Lemma search_duckduckgo_no_query query n : runs_no_query (search_duckduckgo query n).
Proof. unfold search_duckduckgo. no_query. Qed.

Lemma search_brave_no_query query n : runs_no_query (search_brave query n).
Proof. unfold search_brave. no_query. Qed.

Lemma search_all_engines_no_query query : runs_no_query (search_all_engines query).
Proof.
  unfold search_all_engines.
  apply runs_no_query_bind; [apply search_duckduckgo_no_query | intros primary].
  apply runs_no_query_bind; [|intros secondary; apply runs_no_query_ret].
  destruct USE_BRAVE; [apply search_brave_no_query | apply runs_no_query_ret].
Qed.

Lemma fetch_page_text_no_query url n : runs_no_query (fetch_page_text url n).
Proof. unfold fetch_page_text. no_query. Qed.

Lemma visit_page_no_query company role url name_candidates :
  runs_no_query (visit_page company role url name_candidates).
Proof.
  unfold visit_page.
  apply runs_no_query_bind; [apply fetch_page_text_no_query | intros page_text].
  no_query.
Qed.

Lemma visit_result_no_query company role res name_candidates :
  runs_no_query (visit_result company role res name_candidates).
Proof.
  unfold visit_result.
  destruct (result_url res) as [url|]; [|apply runs_no_query_ret].
  destruct (negb (PyStr.nonempty url)); [apply runs_no_query_ret|].
  cbv zeta.
  destruct (match res_body res with Some _ => _ | None => _ end) as [name|];
    [|apply visit_page_no_query].
  destruct (PyStr.nonempty name); [no_query | apply visit_page_no_query].
Qed.

Lemma visit_results_no_query company role results :
  forall name_candidates,
    runs_no_query (visit_results company role results name_candidates).
Proof.
  induction results as [|res rest IH]; intros name_candidates; cbn [visit_results].
  - apply runs_no_query_ret.
  - apply runs_no_query_bind; [apply visit_result_no_query | intros [c|e]].
    + apply IH.
    + apply runs_no_query_ret.
Qed.

(** ** Cache *)

Lemma search_duckduckgo_hit query n w v :
  cache_search w !! cache_key ["ddg"; query] = Some v ->
  search_duckduckgo query n w = (v, snd (tell (CacheHitDdg query) w)).
Proof.
  intros H. unfold search_duckduckgo, bind, get_world. now rewrite H.
Qed.

Lemma search_brave_hit query n w v :
  USE_BRAVE = true ->
  cache_search w !! cache_key ["brave"; query] = Some v ->
  search_brave query n w = (v, snd (tell (CacheHitBrave query) w)).
Proof.
  intros Hb H. unfold search_brave, bind, get_world. rewrite Hb. cbn [negb].
  cbv zeta. now rewrite H.
Qed.

Lemma fetch_page_text_hit url n w v :
  cache_page w !! cache_key ["page"; url] = Some v ->
  fetch_page_text url n w = (v, snd (tell (CacheHitPage url) w)).
Proof.
  intros H. unfold fetch_page_text, bind, get_world. now rewrite H.
Qed.

(** What a call that misses the cache stores is what it returns. *)
Lemma search_duckduckgo_stores query n w r1 w1 v :
  cache_search w !! cache_key ["ddg"; query] = None ->
  search_duckduckgo query n w = (r1, w1) ->
  cache_search w1 !! cache_key ["ddg"; query] = Some v ->
  v = r1.
Proof.
  intros Hmiss. unfold search_duckduckgo, bind, get_world. rewrite Hmiss.
  cbn. destruct (ddgs_text (calls w) query n) as [results|]; cbn.
  - intros [= <- <-]. cbn. rewrite lookup_insert_eq. congruence.
  - intros [= <- <-]. cbn. congruence.
Qed.

Lemma search_brave_stores query n w r1 w1 v :
  cache_search w !! cache_key ["brave"; query] = None ->
  search_brave query n w = (r1, w1) ->
  cache_search w1 !! cache_key ["brave"; query] = Some v ->
  USE_BRAVE = true /\ v = r1.
Proof.
  intros Hmiss. unfold search_brave, bind, get_world.
  destruct USE_BRAVE; cbn [negb].
  2:{ intros [= <- <-]. congruence. }
  cbv zeta. rewrite Hmiss. cbn.
  destruct (brave_get (calls w) query n) as [[status payload]|]; cbn.
  - destruct (status =? 200)%nat; cbn.
    + destruct payload as [items|]; cbn.
      * intros [= <- <-]. cbn. rewrite lookup_insert_eq. intros [= <-]. now split.
      * intros [= <- <-]. cbn. congruence.
    + intros [= <- <-]. cbn. congruence.
  - intros [= <- <-]. cbn. congruence.
Qed.

(** A page fetch that misses the cache always stores what it returns. *)
Lemma fetch_page_text_stores url n w :
  cache_page w !! cache_key ["page"; url] = None ->
  cache_page (snd (fetch_page_text url n w)) !! cache_key ["page"; url]
  = Some (fst (fetch_page_text url n w)).
Proof.
  intros Hmiss. unfold fetch_page_text, bind, get_world. rewrite Hmiss. cbn.
  destruct (requests_get (calls w) url) as [[status html]|]; cbn.
  - destruct (status =? 200)%nat; cbn.
    + destruct (soup_get_text html); cbn; apply lookup_insert_eq.
    + apply lookup_insert_eq.
  - apply lookup_insert_eq.
Qed.




(** C9. When a first call missed the cache and stored a value, the value
    stored is the one it returned, and a second call with the same key, made
    in any world where the entry still stands (entries are never removed),
    returns that value and makes no external call: the record of provider
    calls and page fetches and both cache dictionaries stay as they were.
    This holds for either provider tag and for page fetches; a page fetch
    that misses always stores. *)
Theorem cached_value_is_replayed :
  (forall query query' n n' w r1 w1 v w2,
      cache_key ["ddg"; query'] = cache_key ["ddg"; query] ->
      cache_search w !! cache_key ["ddg"; query] = None ->
      search_duckduckgo query n w = (r1, w1) ->
      cache_search w1 !! cache_key ["ddg"; query] = Some v ->
      cache_search w2 !! cache_key ["ddg"; query] = Some v ->
      exists w3,
        search_duckduckgo query' n' w2 = (v, w3) /\ v = r1 /\
        calls w3 = calls w2 /\
        cache_search w3 = cache_search w2 /\ cache_page w3 = cache_page w2) /\
  (forall query query' n n' w r1 w1 v w2,
      cache_key ["brave"; query'] = cache_key ["brave"; query] ->
      cache_search w !! cache_key ["brave"; query] = None ->
      search_brave query n w = (r1, w1) ->
      cache_search w1 !! cache_key ["brave"; query] = Some v ->
      cache_search w2 !! cache_key ["brave"; query] = Some v ->
      exists w3,
        search_brave query' n' w2 = (v, w3) /\ v = r1 /\
        calls w3 = calls w2 /\
        cache_search w3 = cache_search w2 /\ cache_page w3 = cache_page w2) /\
  (forall url url' n n' w r1 w1 w2,
      cache_key ["page"; url'] = cache_key ["page"; url] ->
      cache_page w !! cache_key ["page"; url] = None ->
      fetch_page_text url n w = (r1, w1) ->
      cache_page w1 !! cache_key ["page"; url] = Some r1 /\
      (cache_page w2 !! cache_key ["page"; url] = Some r1 ->
       exists w3,
         fetch_page_text url' n' w2 = (r1, w3) /\
         calls w3 = calls w2 /\
         cache_search w3 = cache_search w2 /\ cache_page w3 = cache_page w2)).
Proof.
  split; [|split].
  - intros query query' n n' w r1 w1 v w2 Hkey Hmiss Hfirst Hstored Hstill.
    pose proof (search_duckduckgo_stores _ _ _ _ _ _ Hmiss Hfirst Hstored) as ->.
    rewrite <- Hkey in Hstill.
    eexists. split; [apply (search_duckduckgo_hit _ _ _ _ Hstill)|].
    repeat split.
  - intros query query' n n' w r1 w1 v w2 Hkey Hmiss Hfirst Hstored Hstill.
    destruct (search_brave_stores _ _ _ _ _ _ Hmiss Hfirst Hstored) as [Hb ->].
    rewrite <- Hkey in Hstill.
    eexists. split; [apply (search_brave_hit _ _ _ _ Hb Hstill)|].
    repeat split.
  - intros url url' n n' w r1 w1 w2 Hkey Hmiss Hfirst.
    pose proof (fetch_page_text_stores url n w Hmiss) as Hstored.
    rewrite Hfirst in Hstored. cbn [fst snd] in Hstored.
    split; [assumption|]. intros Hstill. rewrite <- Hkey in Hstill.
    eexists. split; [apply (fetch_page_text_hit _ _ _ _ Hstill)|].
    repeat split.
Qed.

(** ** Search aggregator *)

Lemma same_url_exists earlier (r : SearchResult) :
  existsb (fun r' => bool_decide (result_url r' = result_url r)) earlier = true <->
  exists r', In r' earlier /\ result_url r' = result_url r.
Proof.
  rewrite existsb_exists. split; intros (r' & Hin & H); exists r'; split; auto.
  - now apply bool_decide_eq_true in H.
  - now apply bool_decide_eq_true.
Qed.

Lemma first_occurrences_In earlier results r :
  In r (first_occurrences earlier results) ->
  has_url r = true /\
  exists before after,
    results = (before ++ r :: after)%list /\
    forall r', In r' (earlier ++ before)%list -> result_url r' <> result_url r.
Proof.
  revert earlier. induction results as [|x rest IH]; intros earlier; cbn [first_occurrences].
  - intros [].
  - assert (In r (first_occurrences (earlier ++ [x]) rest) ->
            has_url r = true /\
            exists before after,
              x :: rest = (before ++ r :: after)%list /\
              forall r', In r' (earlier ++ before)%list -> result_url r' <> result_url r)
      as Hlater.
    { intros Hin. destruct (IH _ Hin) as (Hu & before & after & -> & Hfresh).
      split; [assumption|]. exists (x :: before), after. split; [reflexivity|].
      intros r' Hr'. apply Hfresh. rewrite <- app_assoc. exact Hr'. }
    destruct (has_url x) eqn:Hx; cbn [andb]; [|exact Hlater].
    destruct (existsb _ earlier) eqn:Hseen; cbn [negb]; [exact Hlater|].
    intros [<-|Hin]; [|now apply Hlater].
    split; [assumption|]. exists [], rest. split; [reflexivity|].
    rewrite app_nil_r. intros r' Hr' Heq.
    assert (existsb (fun r' => bool_decide (result_url r' = result_url x)) earlier = true)
      as C by (apply same_url_exists; eauto).
    congruence.
Qed.

Lemma first_occurrences_sublist earlier results :
  sublist (first_occurrences earlier results) results.
Proof.
  revert earlier. induction results as [|x rest IH]; intros earlier; cbn [first_occurrences].
  - constructor.
  - destruct (has_url x && negb _).
    + apply sublist_skip, IH.
    + apply sublist_cons, IH.
Qed.

Lemma first_occurrences_NoDup earlier results :
  List.NoDup (List.map result_url (first_occurrences earlier results)).
Proof.
  revert earlier. induction results as [|x rest IH]; intros earlier; cbn [first_occurrences].
  - constructor.
  - destruct (has_url x && negb _); [|apply IH].
    cbn [List.map]. constructor; [|apply IH].
    intros Hin. apply in_map_iff in Hin as (r & Heq & Hin).
    destruct (first_occurrences_In _ _ _ Hin) as (_ & before & after & _ & Hfresh).
    apply (Hfresh x); [|now symmetry].
    apply in_or_app. left. apply in_or_app. right. now left.
Qed.

Lemma first_occurrences_cover earlier results r :
  In r results -> has_url r = true ->
  (exists r', In r' earlier /\ result_url r' = result_url r) \/
  (exists r', In r' (first_occurrences earlier results) /\ result_url r' = result_url r).
Proof.
  revert earlier. induction results as [|x rest IH]; intros earlier; [intros []|].
  intros [->|Hin] Hu; cbn [first_occurrences].
  - rewrite Hu. cbn [andb].
    destruct (existsb _ earlier) eqn:Hseen; cbn [negb].
    + left. now apply same_url_exists.
    + right. exists r. split; [now left | reflexivity].
  - destruct (IH (earlier ++ [x])%list Hin Hu) as [(r' & Hr' & Heq)|(r' & Hr' & Heq)].
    + apply in_app_or in Hr' as [Hr'|[<-|[]]].
      * left. eauto.
      * assert (has_url x = true) as Hu' by (unfold has_url in *; congruence).
        rewrite Hu'. cbn [andb].
        destruct (existsb _ earlier) eqn:Hseen; cbn [negb].
        -- left. apply same_url_exists in Hseen as (r0 & H0 & E0).
           exists r0. split; [assumption | congruence].
        -- right. exists x. split; [now left | assumption].
    + right. exists r'. split; [|assumption].
      destruct (has_url x && negb _); [now right | assumption].
Qed.

(** The set [seen] holds the URLs of the results read so far. *)
Lemma unique_from_first_occurrences results :
  forall (seen : gset string) earlier,
    (forall u, u ∈ seen <->
               PyStr.nonempty u = true /\
               exists r', In r' earlier /\ result_url r' = Some u) ->
    unique_from seen results = first_occurrences earlier results.
Proof.
  induction results as [|r rest IH]; intros seen earlier Hseen; [reflexivity|].
  cbn [unique_from first_occurrences]. unfold has_url, truthy.
  destruct (result_url r) as [url|] eqn:Hr.
  2:{ cbn [andb]. apply IH. intros u. rewrite Hseen. split.
      - intros (Hu & r' & Hin & E). split; [assumption|]. exists r'.
        split; [apply in_or_app; now left | assumption].
      - intros (Hu & r' & Hin & E). split; [assumption|].
        apply in_app_or in Hin as [Hin|[<-|[]]]; [eauto | congruence]. }
  destruct (PyStr.nonempty url) eqn:Hne; cbn [andb].
  2:{ apply IH. intros u. rewrite Hseen. split.
      - intros (Hu & r' & Hin & E). split; [assumption|]. exists r'.
        split; [apply in_or_app; now left | assumption].
      - intros (Hu & r' & Hin & E). split; [assumption|].
        apply in_app_or in Hin as [Hin|[<-|[]]]; [eauto | congruence]. }
  assert (bool_decide (url ∈ seen) =
          existsb (fun r' => bool_decide (result_url r' = Some url)) earlier) as ->.
  { destruct (existsb _ earlier) eqn:E.
    - apply bool_decide_eq_true, Hseen. split; [assumption|].
      apply existsb_exists in E as (r' & Hin & E).
      apply bool_decide_eq_true in E. eauto.
    - apply bool_decide_eq_false. intros Hin. apply Hseen in Hin as (_ & r' & Hin & E').
      assert (existsb (fun r' => bool_decide (result_url r' = Some url)) earlier = true)
        as C.
      { apply existsb_exists. exists r'. split; [assumption|].
        now apply bool_decide_eq_true. }
      congruence. }
  destruct (existsb _ earlier) eqn:E; cbn [negb].
  - apply IH. intros u. rewrite Hseen. split.
    + intros (Hu & r' & Hin & E'). split; [assumption|]. exists r'.
      split; [apply in_or_app; now left | assumption].
    + intros (Hu & r' & Hin & E'). split; [assumption|].
      apply in_app_or in Hin as [Hin|[<-|[]]]; [eauto|].
      apply existsb_exists in E as (r0 & H0 & E0).
      apply bool_decide_eq_true in E0. exists r0. split; [assumption | congruence].
  - f_equal. apply IH. intros u. rewrite elem_of_union, elem_of_singleton, Hseen. split.
    + intros [->|(Hu & r' & Hin & E')].
      * split; [assumption|]. exists r. split; [apply in_or_app; right; now left | assumption].
      * split; [assumption|]. exists r'. split; [apply in_or_app; now left | assumption].
    + intros (Hu & r' & Hin & E').
      apply in_app_or in Hin as [Hin|[<-|[]]]; [right; eauto | left; congruence].
Qed.

(** C8. [search_all_engines] returns the results of the primary provider
    followed by those of the secondary one (none when it is disabled),
    without the results that lack a URL and with one result per URL: the
    first of the merged list.  The kept results stand in the order of the
    merged list. *)
Theorem search_all_engines_merges query w :
  exists primary w1 secondary w2,
    search_duckduckgo query 20 w = (primary, w1) /\
    (if USE_BRAVE then search_brave query 20 w1 else ([], w1)) = (secondary, w2) /\
    let merged := (primary ++ secondary)%list in
    let unique := first_occurrences [] merged in
    search_all_engines query w = (unique, w2) /\
    sublist unique merged /\
    Forall (fun r => has_url r = true) unique /\
    List.NoDup (List.map result_url unique) /\
    (forall r, In r unique ->
       exists before after,
         merged = (before ++ r :: after)%list /\
         forall r', In r' before -> result_url r' <> result_url r) /\
    (forall r, In r merged -> has_url r = true ->
       exists r', In r' unique /\ result_url r' = result_url r).
Proof.
  destruct (search_duckduckgo query 20 w) as [primary w1] eqn:H1.
  destruct (if USE_BRAVE then search_brave query 20 w1 else ([], w1))
    as [secondary w2] eqn:H2.
  exists primary, w1, secondary, w2. split; [reflexivity|]. split; [exact H2|].
  intros merged unique. split; [|split; [|split; [|split; [|split]]]].
  - unfold search_all_engines, bind. rewrite H1.
    assert ((if USE_BRAVE then search_brave query 20 else ret []) w1 = (secondary, w2))
      as -> by (destruct USE_BRAVE; exact H2).
    unfold ret. f_equal. apply unique_from_first_occurrences.
    intros u. rewrite elem_of_empty. split; [intros [] | intros (_ & r' & [] & _)].
  - apply first_occurrences_sublist.
  - apply List.Forall_forall. intros r Hin.
    now destruct (first_occurrences_In _ _ _ Hin).
  - apply first_occurrences_NoDup.
  - intros r Hin.
    destruct (first_occurrences_In _ _ _ Hin) as (_ & before & after & E & Hfresh).
    exists before, after. split; [assumption|]. intros r' Hr'. now apply Hfresh.
  - intros r Hin Hu.
    destruct (first_occurrences_cover [] merged r Hin Hu) as [(r' & [] & _)|H];
      exact H.
Qed.

(** ** The query loop *)

(** A result either leaves the candidates alone or appends one source
    under a name that is not empty. *)
Lemma visit_page_outcome company role url name_candidates w r w' :
  visit_page company role url name_candidates w = (r, w') ->
  r = Ok name_candidates \/
  exists name,
    PyStr.nonempty name = true /\ r = append_source name url name_candidates.
Proof.
  unfold visit_page, bind, ret.
  destruct (fetch_page_text url 5000 w) as [page_text w1].
  destruct (PyStr.nonempty page_text); [|intros [= <- <-]; now left].
  destruct (extract_name_from_text page_text company role) as [name|];
    [|intros [= <- <-]; now left].
  destruct (PyStr.nonempty name) eqn:Hname; [|intros [= <- <-]; now left].
  destruct (tell (FoundInPage name url) w1) as [[] w2].
  intros [= <- <-]. right. now exists name.
Qed.

Lemma visit_result_outcome company role res name_candidates w r w' :
  visit_result company role res name_candidates w = (r, w') ->
  r = Ok name_candidates \/
  exists name url,
    PyStr.nonempty name = true /\ r = append_source name url name_candidates.
Proof.
  unfold visit_result.
  destruct (result_url res) as [url|]; [|unfold ret; intros [= <- <-]; now left].
  destruct (negb (PyStr.nonempty url)); [unfold ret; intros [= <- <-]; now left|].
  cbv zeta.
  assert (visit_page company role url name_candidates w = (r, w') ->
          r = Ok name_candidates \/
          exists name url,
            PyStr.nonempty name = true /\ r = append_source name url name_candidates)
    as Hpage.
  { intros H. apply visit_page_outcome in H as [H|(name & Hname & H)]; eauto. }
  destruct (match res_body res with Some _ => _ | None => _ end) as [name|];
    [|exact Hpage].
  destruct (PyStr.nonempty name) eqn:Hname; [|exact Hpage].
  unfold bind, ret. destruct (tell (FoundInSnippet name url) w) as [[] w1].
  intros [= <- <-]. right. now exists name, url.
Qed.

(** Whatever appending a source under a non-empty name preserves, the loop
    preserves. *)
Section Preserved.

Variable P : Candidates -> Prop.

Hypothesis append_source_preserves :
  forall name url name_candidates name_candidates',
    PyStr.nonempty name = true ->
    append_source name url name_candidates = Ok name_candidates' ->
    P name_candidates -> P name_candidates'.

Lemma visit_result_preserves company role res name_candidates w name_candidates' w' :
  visit_result company role res name_candidates w = (Ok name_candidates', w') ->
  P name_candidates -> P name_candidates'.
Proof using append_source_preserves.
  intros H HP. apply visit_result_outcome in H as [[= <-]|(name & url & Hname & H)].
  - assumption.
  - symmetry in H. exact (append_source_preserves _ _ _ _ Hname H HP).
Qed.

Lemma visit_results_preserves company role results :
  forall name_candidates w name_candidates' w',
    visit_results company role results name_candidates w = (Ok name_candidates', w') ->
    P name_candidates -> P name_candidates'.
Proof using append_source_preserves.
  induction results as [|res rest IH]; intros c w c' w'; cbn [visit_results].
  - unfold ret. now intros [= <- <-].
  - unfold bind. destruct (visit_result company role res c w) as [[c1|e] w1] eqn:E.
    + intros H HP. apply (IH _ _ _ _ H).
      exact (visit_result_preserves _ _ _ _ _ _ _ E HP).
    + unfold ret. discriminate.
Qed.

Lemma query_loop_preserves company role queries :
  forall name_candidates w name_candidates' w',
    query_loop company role queries name_candidates w = (Ok name_candidates', w') ->
    P name_candidates -> P name_candidates'.
Proof using append_source_preserves.
  induction queries as [|query rest IH]; intros c w c' w'; cbn [query_loop].
  - unfold ret. now intros [= <- <-].
  - unfold bind.
    destruct (tell (RunningQuery query) w) as [[] w0].
    destruct (search_all_engines query w0) as [results w1].
    destruct (visit_results company role results c w1) as [[c1|e] w2] eqn:E;
      [|unfold ret; discriminate].
    intros H HP. pose proof (visit_results_preserves _ _ _ _ _ _ _ E HP) as HP1.
    destruct (stop_condition c1).
    + unfold ret in H. now injection H as <- <-.
    + exact (IH _ _ _ _ H HP1).
Qed.

End Preserved.

Lemma query_loop_well_formed company role queries name_candidates w name_candidates' w' :
  query_loop company role queries name_candidates w = (Ok name_candidates', w') ->
  well_formed name_candidates -> well_formed name_candidates'.
Proof.
  apply (query_loop_preserves well_formed). intros name url c c' Hname H.
  exact (append_source_well_formed _ _ _ _ Hname H).
Qed.

(** The names of the mapping stay pairwise different, so that its length
    counts the names found. *)
Lemma query_loop_names_distinct company role queries name_candidates w name_candidates' w' :
  query_loop company role queries name_candidates w = (Ok name_candidates', w') ->
  List.NoDup (List.map fst name_candidates) ->
  List.NoDup (List.map fst name_candidates').
Proof.
  apply (query_loop_preserves (fun c => List.NoDup (List.map fst c))).
  intros name url c c' _. unfold append_source.
  destruct (source_credibility url); [|discriminate].
  intros [= <-] Hnd. now apply add_contribution_names.
Qed.

(** The loop runs a prefix of the queries it is given, in order. *)
Lemma query_loop_issued company role queries :
  forall name_candidates w r w',
    query_loop company role queries name_candidates w = (r, w') ->
    exists k, (k <= length queries)%nat /\
              issued_queries w' = (issued_queries w ++ firstn k queries)%list.
Proof.
  induction queries as [|query rest IH]; intros c w r w'; cbn [query_loop].
  - unfold ret. intros [= <- <-]. exists 0%nat. split; [lia|]. now rewrite app_nil_r.
  - unfold bind.
    pose proof (issued_queries_tell (RunningQuery query) w) as Htell.
    destruct (tell (RunningQuery query) w) as [[] w0]. cbn [snd] in Htell.
    pose proof (search_all_engines_no_query query w0) as Hsearch.
    destruct (search_all_engines query w0) as [results w1]. cbn [snd] in Hsearch.
    pose proof (visit_results_no_query company role results c w1) as Hvisit.
    destruct (visit_results company role results c w1) as [[c1|e] w2].
    + cbn [snd] in Hvisit. destruct (stop_condition c1).
      * unfold ret. intros [= <- <-]. exists 1%nat. cbn [firstn length].
        split; [lia|]. now rewrite Hvisit, Hsearch, Htell.
      * intros H. destruct (IH _ _ _ _ H) as (k & Hk & Hiss).
        exists (S k). cbn [firstn length]. split; [lia|].
        rewrite Hiss, Hvisit, Hsearch, Htell, <- app_assoc. reflexivity.
    + cbn [snd] in Hvisit. unfold ret. intros [= <- <-].
      exists 1%nat. cbn [firstn length]. split; [lia|].
      now rewrite Hvisit, Hsearch, Htell.
Qed.

(** Once the loop has stopped on the stop condition, more queries after
    the ones given change nothing. *)
Lemma query_loop_stopped company role queries :
  forall later name_candidates w name_candidates' w',
    queries <> [] ->
    query_loop company role queries name_candidates w = (Ok name_candidates', w') ->
    stop_condition name_candidates' = true ->
    query_loop company role (queries ++ later) name_candidates w
    = (Ok name_candidates', w').
Proof.
  induction queries as [|query rest IH]; intros later c w c' w' Hne; [congruence|].
  cbn [query_loop app]. unfold bind.
  destruct (tell (RunningQuery query) w) as [[] w0].
  destruct (search_all_engines query w0) as [results w1].
  destruct (visit_results company role results c w1) as [[c1|e] w2];
    [|unfold ret; discriminate].
  destruct (stop_condition c1) eqn:Hstop; [tauto|].
  intros H Hstop'. destruct rest as [|query' rest'].
  - cbn [query_loop] in H. unfold ret in H. injection H as <- <-. congruence.
  - apply IH; [discriminate | assumption | assumption].
Qed.

(** C7. When the loop, after the whole result set of a query [q], holds at
    least 2 names and at least 3 contributions in total, it ends there: the
    run over the queries up to [q] followed by any further queries is the
    run over the queries up to [q], with the same candidates, log, external
    calls and cache, and the queries run are among those up to [q].  The
    names of the mapping are pairwise different, so its length counts them. *)
Theorem early_stop company role before q later name_candidates w name_candidates' w' :
  query_loop company role (before ++ [q]) name_candidates w = (Ok name_candidates', w') ->
  (2 <= length name_candidates')%nat ->
  (3 <= total_contributions name_candidates')%nat ->
  query_loop company role (before ++ q :: later) name_candidates w
  = (Ok name_candidates', w') /\
  (exists k, (k <= length before + 1)%nat /\
             issued_queries w' = (issued_queries w ++ firstn k (before ++ [q]))%list) /\
  (List.NoDup (List.map fst name_candidates) ->
   List.NoDup (List.map fst name_candidates')).
Proof.
  intros Hrun H2 H3.
  split; [|split; [|exact (query_loop_names_distinct _ _ _ _ _ _ _ Hrun)]].
  - replace (before ++ q :: later)%list with ((before ++ [q]) ++ later)%list
      by (rewrite <- app_assoc; reflexivity).
    apply query_loop_stopped; [now destruct before | assumption |].
    unfold stop_condition. apply andb_true_iff. split; now apply Nat.leb_le.
  - destruct (query_loop_issued _ _ _ _ _ _ _ Hrun) as (k & Hk & Hiss).
    exists k. split; [|assumption]. rewrite length_app in Hk. cbn in Hk. lia.
Qed.

(** ** No result at all *)

Lemma query_loop_silent company role queries :
  forall name_candidates w,
    stop_condition name_candidates = false ->
    Forall (fun results => results = [])
           (results_seen company role queries name_candidates w) ->
    exists w',
      query_loop company role queries name_candidates w = (Ok name_candidates, w') /\
      issued_queries w' = (issued_queries w ++ queries)%list.
Proof.
  induction queries as [|query rest IH]; intros c w Hstop;
    cbn [query_loop results_seen].
  - intros _. exists w. split; [reflexivity | now rewrite app_nil_r].
  - unfold bind.
    pose proof (issued_queries_tell (RunningQuery query) w) as Htell.
    destruct (tell (RunningQuery query) w) as [[] w0]. cbn [snd] in Htell.
    pose proof (search_all_engines_no_query query w0) as Hsearch.
    destruct (search_all_engines query w0) as [results w1]. cbn [snd] in Hsearch.
    intros Hall. apply Forall_cons_iff in Hall as [-> Hall].
    cbn [visit_results] in *. unfold ret in *. rewrite Hstop in *.
    destruct (IH c w1 Hstop Hall) as (w' & Hrun & Hiss).
    exists w'. split; [assumption|].
    rewrite Hiss, Hsearch, Htell, <- app_assoc. reflexivity.
Qed.

(** C2. When every query the loop runs gets an empty result list from
    [search_all_engines], whatever the order of the queries, no candidate
    is accumulated, every query is run, and [search] returns the error
    dictionary "No credible source found": neither the exception handler
    nor the other error is reached. *)
Theorem no_result_no_credible_source company role queries w :
  Forall (fun results => results = []) (results_seen company role queries [] w) ->
  exists w',
    search_with queries company role w = (no_credible_source, w') /\
    query_loop company role queries [] w = (Ok [], w') /\
    issued_queries w' = (issued_queries w ++ queries)%list.
Proof.
  intros Hall.
  destruct (query_loop_silent company role queries [] w eq_refl Hall)
    as (w' & Hrun & Hiss).
  exists w'. split; [|split; assumption].
  unfold search_with, bind. now rewrite Hrun.
Qed.

(** ** The winner and the answer *)

Lemma select_output_chosen comp role b :
  chosen b ->
  match select_output comp role b with
  | Ok (Found _) | Raise IndexError => True
  | _ => False
  end.
Proof.
  intros (name & Hname & Hne & _). unfold select_output. rewrite Hname, Hne.
  cbn [negb]. now destruct (PyStr.split name).
Qed.

(** [search] never answers "Could not determine a valid name.". *)
Lemma search_with_never_no_valid_name queries comp role w :
  fst (search_with queries comp role w) <> no_valid_name.
Proof.
  unfold search_with, bind.
  destruct (query_loop comp role queries [] w) as [[cands|e] w1] eqn:Hrun;
    [|cbn; discriminate].
  unfold conclude. destruct cands as [|item cands]; [cbn; discriminate|].
  assert (well_formed (item :: cands)) as Hwf.
  { apply (query_loop_well_formed _ _ _ _ _ _ _ Hrun). constructor. }
  destruct (rank_chosen (item :: cands) Hwf ltac:(discriminate)) as (b & -> & Hb).
  pose proof (select_output_chosen comp role b Hb) as Hsel.
  destruct (select_output comp role b) as [[a|err details|code detail]|[]];
    try contradiction; cbn; discriminate.
Qed.

(** C10. Whenever the query loop ends with at least one candidate, the
    scoring loop selects a winner: it returns a best name that is not empty
    with a best score above the initial 0.0, because every accumulated
    score is at least 0.6 and the multiplier is positive.  The branch that
    answers "Could not determine a valid name." is therefore never taken. *)
Theorem winner_always_selected comp role queries w name_candidates w1 :
  query_loop comp role queries [] w = (Ok name_candidates, w1) ->
  name_candidates <> [] ->
  well_formed name_candidates /\
  (exists b name,
      rank name_candidates = Ok b /\
      best_name b = Some name /\ PyStr.nonempty name = true /\
      (0 < best_score b)%Q /\
      select_output comp role b <> Ok no_valid_name) /\
  fst (search_with queries comp role w) <> no_valid_name.
Proof.
  intros Hrun Hne.
  assert (well_formed name_candidates) as Hwf.
  { apply (query_loop_well_formed _ _ _ _ _ _ _ Hrun). constructor. }
  split; [assumption|]. split; [|apply search_with_never_no_valid_name].
  destruct (rank_chosen name_candidates Hwf Hne) as (b & Hrank & Hb).
  pose proof (select_output_chosen comp role b Hb) as Hsel.
  destruct Hb as (name & Hname & Hnonempty & Hpos).
  exists b, name. repeat split; try assumption.
  intros Hsel'. rewrite Hsel' in Hsel. exact Hsel.
Qed.


(** ** [search] as a whole *)

(** [search] always returns, whatever the order in which the set of queries
    is iterated. *)
Lemma search_returns comp role w :
  exists response w', search comp role w response w'.
Proof.
  exists (fst (search_with (build_queries_some comp role) comp role w)).
  exists (snd (search_with (build_queries_some comp role) comp role w)).
  exists (build_queries_some comp role).
  split; [apply build_queries_some_ok | apply surjective_pairing].
Qed.

Lemma search_never_no_valid_name comp role w response w' :
  search comp role w response w' -> response <> no_valid_name.
Proof.
  intros (queries & _ & Hrun).
  pose proof (search_with_never_no_valid_name queries comp role w) as H.
  now rewrite Hrun in H.
Qed.

End PipelineFacts.

(** ** The theorems at work on the two sample environments *)

Lemma cached_value_is_replayed_witness :
  let w1 := snd (search_duckduckgo (env := demo_env) "Acme CEO" 20 empty_world) in
  let w2 := snd (fetch_page_text (env := demo_env) "https://acme.example/team" 5000 w1) in
  exists w3,
    search_duckduckgo (env := demo_env) "Acme CEO" 20 w2 = (demo_results, w3) /\
    demo_results = demo_results /\
    calls w3 = calls w2 /\
    cache_search w3 = cache_search w2 /\ cache_page w3 = cache_page w2.
Proof.
  intros w1 w2.
  apply (proj1 (@cached_value_is_replayed demo_env)
           "Acme CEO" "Acme CEO" 20%nat 20%nat empty_world demo_results w1
           demo_results w2).
  - reflexivity.
  - reflexivity.
  - reflexivity.
  - subst w1. cbn. apply lookup_insert_eq.
  - subst w2 w1. cbn. apply lookup_insert_eq.
Defined.

Lemma early_stop_witness :
  let run := query_loop (env := demo_env) "Acme" "CEO" ["Acme CEO"] [] empty_world in
  query_loop (env := demo_env) "Acme" "CEO"
    ([] ++ "Acme CEO" :: ["Who is the CEO of Acme"; "Acme CEO LinkedIn"]) [] empty_world
  = (Ok [("Jane Doe", [("https://www.linkedin.com/in/jane-doe", 0.95%Q);
                        ("https://en.wikipedia.org/wiki/Acme", 0.9%Q)]);
         ("Rita Stone", [("https://acme.example/team", 0.6%Q)])],
     snd run) /\
  (exists k, (k <= length (@nil string) + 1)%nat /\
             issued_queries (snd run)
             = (issued_queries empty_world ++ firstn k ([] ++ ["Acme CEO"]))%list) /\
  (List.NoDup (List.map fst (@nil (string * list Contribution))) ->
   List.NoDup (List.map fst
     [("Jane Doe", [("https://www.linkedin.com/in/jane-doe", 0.95%Q);
                    ("https://en.wikipedia.org/wiki/Acme", 0.9%Q)]);
      ("Rita Stone", [("https://acme.example/team", 0.6%Q)])])).
Proof.
  intros run.
  apply (@early_stop demo_env "Acme" "CEO" [] "Acme CEO"
           ["Who is the CEO of Acme"; "Acme CEO LinkedIn"] [] empty_world).
  - rewrite (surjective_pairing
               (query_loop (env := demo_env) "Acme" "CEO" ([] ++ ["Acme CEO"]) [] empty_world)).
    f_equal.
  - cbn. lia.
  - cbn. lia.
Defined.

Lemma no_result_no_credible_source_witness :
  exists w',
    search_with (env := silent_env) (build_queries_some "Acme" "CEO") "Acme" "CEO"
      empty_world = (no_credible_source, w') /\
    query_loop (env := silent_env) "Acme" "CEO" (build_queries_some "Acme" "CEO") []
      empty_world = (Ok [], w') /\
    issued_queries w'
    = (issued_queries empty_world ++ build_queries_some "Acme" "CEO")%list.
Proof.
  apply (@no_result_no_credible_source silent_env "Acme" "CEO"
           (build_queries_some "Acme" "CEO") empty_world).
  vm_compute. repeat constructor.
Defined.

Lemma winner_always_selected_witness :
  let run := query_loop (env := demo_env) "Acme" "CEO" (build_queries_some "Acme" "CEO")
               [] empty_world in
  let name_candidates :=
    [("Jane Doe", [("https://www.linkedin.com/in/jane-doe", 0.95%Q);
                   ("https://en.wikipedia.org/wiki/Acme", 0.9%Q)]);
     ("Rita Stone", [("https://acme.example/team", 0.6%Q)])] in
  well_formed name_candidates /\
  (exists b name,
      rank name_candidates = Ok b /\
      best_name b = Some name /\ PyStr.nonempty name = true /\
      (0 < best_score b)%Q /\
      select_output "Acme" "CEO" b <> Ok no_valid_name) /\
  fst (search_with (env := demo_env) (build_queries_some "Acme" "CEO") "Acme" "CEO"
         empty_world) <> no_valid_name.
Proof.
  intros run name_candidates.
  apply (@winner_always_selected demo_env "Acme" "CEO" (build_queries_some "Acme" "CEO")
           empty_world name_candidates (snd run)).
  - subst run. rewrite (surjective_pairing (query_loop _ _ _ _ _)) at 1. f_equal.
  - discriminate.
Defined.


(* ===================================================================== *)
(** * Part III: further properties of the code                            *)
(* ===================================================================== *)

(** ** Query builder: which aliases can be reached *)

Lemma upper_char_not_lower c : PyStr.islower (PyStr.upper_char c) = false.
Proof. destruct c as [[] [] [] [] [] [] [] []]; reflexivity. Qed.

Lemma upper_has_no_lower s : some_char PyStr.islower (PyStr.upper s) = false.
Proof.
  unfold PyStr.upper. induction s as [|c s IH]; cbn [PyStr.map some_char];
    [reflexivity|].
  now rewrite upper_char_not_lower, IH.
Qed.

Lemma aliases_get_upper s :
  aliases_get (PyStr.upper s) = [] \/ In (PyStr.upper s) acronym_keys.
Proof.
  pose proof (upper_has_no_lower s) as Hlow.
  unfold aliases_get, aliases. cbn [dict_get].
  repeat match goal with
         | |- context [String.eqb ?k (PyStr.upper s)] =>
             destruct (String.eqb_spec k (PyStr.upper s)) as [E|_];
             [ first [ right; rewrite <- E; cbn; tauto
                     | rewrite <- E in Hlow; discriminate Hlow ] | ]
         end.
  now left.
Qed.

(** X1. The table entries keyed "Founder", "Director", "Manager" and
    "President" are never used: the lookup key is upper-cased, so the
    variants of a role are the role itself and aliases of the five
    acronyms. *)
Theorem role_variants_from_acronyms role v :
  In v (role_variants role) ->
  v = role \/ exists key, In key acronym_keys /\ In v (aliases_get key).
Proof.
  rewrite role_variants_known. intros [<-|Hin]; [now left|]. right.
  assert (forall s, In v (aliases_get (PyStr.upper s)) ->
                    exists key, In key acronym_keys /\ In v (aliases_get key)) as Hkey.
  { intros s Hv. destruct (aliases_get_upper s) as [E|E].
    - rewrite E in Hv. destruct Hv.
    - eauto. }
  unfold known_aliases in Hin. apply in_app_or in Hin as [Hin|Hin].
  - now apply (Hkey role).
  - destruct (PyStr.contains "&" role); [|destruct Hin].
    apply in_flat_map in Hin as (p & _ & Hp). now apply (Hkey (PyStr.strip p)).
Qed.

Lemma role_variants_from_acronyms_witness :
  "Chief Technology Officer" = "cto" \/
  exists key, In key acronym_keys /\ In "Chief Technology Officer" (aliases_get key).
Proof.
  apply (role_variants_from_acronyms "cto" "Chief Technology Officer").
  right. left. reflexivity.
Defined.

(** ** Query builder: what every query holds *)

Lemma prefix_append x b : String.prefix x (x ++ b) = true.
Proof.
  induction x as [|c x IH]; [now destruct b|].
  change (String.prefix (String c x) (String c (x ++ b)) = true).
  cbn [String.prefix].
  destruct (Ascii.ascii_dec c c); [assumption | congruence].
Qed.

Lemma contains_prefix x h : String.prefix x h = true -> PyStr.contains x h = true.
Proof. intros H. destruct h; cbn [PyStr.contains]; now rewrite H. Qed.

Lemma contains_append_left x a h :
  PyStr.contains x h = true -> PyStr.contains x (a ++ h) = true.
Proof.
  intros H. induction a as [|c a IH]; [assumption|].
  change (PyStr.contains x (String c (a ++ h)) = true).
  cbn [PyStr.contains]. rewrite IH. apply orb_true_r.
Qed.

Lemma contains_middle x a b : PyStr.contains x (a ++ x ++ b) = true.
Proof. apply contains_append_left, contains_prefix, prefix_append. Qed.

Lemma contains_end x a : PyStr.contains x (a ++ x) = true.
Proof.
  apply contains_append_left, contains_prefix.
  induction x as [|c x IH]; [reflexivity|]. cbn [String.prefix].
  destruct (Ascii.ascii_dec c c); [assumption | congruence].
Qed.

Lemma contains_start x b : PyStr.contains x (x ++ b) = true.
Proof. apply contains_prefix, prefix_append. Qed.

(** X2. Every query of [build_queries] holds the company and one of the role
    variants, verbatim. *)
Theorem queries_hold_company_and_variant company role qs q :
  build_queries company role qs ->
  In q qs ->
  PyStr.contains company q = true /\
  exists v, In v (role_variants role) /\ PyStr.contains v q = true.
Proof.
  intros [_ Hin] Hq. apply Hin in Hq. unfold query_list in Hq.
  apply in_flat_map in Hq as (v & Hv & Hq).
  assert (PyStr.contains company q = true /\ PyStr.contains v q = true) as [Hc Hr].
  { unfold templates in Hq. cbn [In] in Hq.
    destruct Hq as [<-|[<-|[<-|[<-|[<-|[]]]]]]; split;
      repeat first [ apply contains_start | apply contains_end
                   | apply contains_middle | apply contains_append_left ]. }
  split; [assumption|]. now exists v.
Qed.

Lemma queries_hold_company_and_variant_witness :
  PyStr.contains "Acme" "Who is the Chief Executive of Acme" = true /\
  exists v, In v (role_variants "CEO") /\
            PyStr.contains v "Who is the Chief Executive of Acme" = true.
Proof.
  apply (queries_hold_company_and_variant "Acme" "CEO" (build_queries_some "Acme" "CEO")).
  - apply build_queries_some_ok.
  - apply dedup_In. unfold query_list. apply in_flat_map.
    exists "Chief Executive". split; [right; right; left; reflexivity|].
    right. left. reflexivity.
Defined.

(** ** Name-shape filter: what an accepted string looks like *)






(** ** Ranking engine: what the winner is *)

Open Scope Q_scope.

Lemma py_max_by_score_greatest c contribs top :
  py_max_by_score (c :: contribs) = Ok top ->
  In top (c :: contribs) /\ forall x, In x (c :: contribs) -> snd x <= snd top.
Proof.
  unfold py_max_by_score. intros [= <-].
  assert (forall (l : list Contribution) (best : Contribution),
             let top := fold_left (fun best x : Contribution =>
                                     if Qltb (snd best) (snd x) then x else best)
                                  l best in
             (top = best \/ In top l) /\ snd best <= snd top /\
             forall x, In x l -> snd x <= snd top) as Hfold.
  { induction l as [|x l IH]; intros best; cbn [fold_left].
    - split; [now left|]. split; [apply Qle_refl | intros x []].
    - specialize (IH (if Qltb (snd best) (snd x) then x else best)).
      cbv zeta in IH. destruct IH as (Hin & Hle & Hall).
      destruct (Qltb (snd best) (snd x)) eqn:E.
      + apply Qltb_lt in E. split; [|split].
        * right. destruct Hin as [->|Hin]; [now left | now right].
        * lra.
        * intros y [<-|Hy]; [assumption | now apply Hall].
      + apply Qltb_ge in E. split; [|split].
        * destruct Hin as [->|Hin]; [now left | right; now right].
        * assumption.
        * intros y [<-|Hy]; [lra | now apply Hall]. }
  pose proof (Hfold contribs c) as H. cbv zeta in H.
  destruct H as (Hin & Hle & Hall). split.
  - destruct Hin as [Heq|Hin]; [left; symmetry; exact Heq | right; exact Hin].
  - intros x [<-|Hx]; [exact Hle | exact (Hall x Hx)].
Qed.

Lemma rank_from_source name_candidates items :
  incl items name_candidates ->
  forall b0 b name,
    rank_from b0 items = Ok b ->
    best_name b = Some name ->
    (best_name b0 = Some name /\ best_url b0 = best_url b) \/
    exists sources score,
      In (name, sources) name_candidates /\
      In (best_url b, score) sources /\
      forall c, In c sources -> snd c <= score.
Proof.
  induction items as [|[n sources] items IH]; intros Hincl b0 b name; cbn [rank_from].
  - intros [= <-] Hname. now left.
  - destruct (rank_step b0 (n, sources)) as [b1|] eqn:Hstep; [|discriminate].
    intros Hrun Hname.
    assert (incl items name_candidates) as Hincl'
      by (intros x Hx; apply Hincl; now right).
    destruct (IH Hincl' b1 b name Hrun Hname) as [[Hn1 Hu1]|H]; [|now right].
    unfold rank_step in Hstep.
    destruct (final_score n sources (best_url b0)) as [score|]; [|discriminate].
    destruct (Qltb (best_score b0) score).
    + destruct sources as [|c sources]; [discriminate|].
      destruct (py_max_by_score (c :: sources)) as [top|] eqn:Htop; [|discriminate].
      injection Hstep as <-. cbn in Hn1, Hu1. injection Hn1 as <-.
      destruct (py_max_by_score_greatest _ _ _ Htop) as [Hin Hmax].
      right. exists (c :: sources), (snd top). split; [apply Hincl; now left|].
      split; [|assumption]. rewrite <- Hu1. now destruct top.
    + injection Hstep as <-. now left.
Qed.

(** X4. The URL returned with the winner is one of the winner's own sources,
    and none of its sources has a higher credibility. *)
Theorem winner_url_is_its_most_credible name_candidates b name :
  rank name_candidates = Ok b ->
  best_name b = Some name ->
  exists sources score,
    In (name, sources) name_candidates /\
    In (best_url b, score) sources /\
    forall c, In c sources -> snd c <= score.
Proof.
  intros Hrank Hname.
  destruct (rank_from_source name_candidates name_candidates (incl_refl _)
              initial_best b name Hrank Hname) as [[H _]|H]; [discriminate H | exact H].
Qed.

Lemma winner_url_is_its_most_credible_witness :
  exists sources score,
    In ("Jane Doe"%string, sources)
       [("Rita Stone"%string, [("https://acme.example/team"%string, 0.6)]);
        ("Jane Doe"%string, [("https://en.wikipedia.org/wiki/Acme"%string, 0.9);
                             ("https://www.linkedin.com/in/jane-doe"%string, 0.95)])] /\
    In ("https://www.linkedin.com/in/jane-doe"%string, score) sources /\
    forall c, In c sources -> snd c <= score.
Proof.
  apply (winner_url_is_its_most_credible
           [("Rita Stone"%string, [("https://acme.example/team"%string, 0.6)]);
            ("Jane Doe"%string, [("https://en.wikipedia.org/wiki/Acme"%string, 0.9);
                                 ("https://www.linkedin.com/in/jane-doe"%string, 0.95)])]
           {| best_name := Some "Jane Doe"%string; best_score := 1998000 # 2000000;
              best_url := "https://www.linkedin.com/in/jane-doe" |}
           "Jane Doe"%string).
  - vm_compute. reflexivity.
  - reflexivity.
Defined.





Close Scope Q_scope.

(** ** Search aggregator: when nothing is dropped *)

Lemma unique_from_empty results :
  unique_from ∅ results = first_occurrences [] results.
Proof.
  apply unique_from_first_occurrences. intros u. rewrite elem_of_empty.
  split; [intros [] | intros (_ & r' & [] & _)].
Qed.

Lemma first_occurrences_fixed results :
  forall earlier,
    Forall (fun r => has_url r = true) results ->
    List.NoDup (List.map result_url results) ->
    (forall r r', In r results -> In r' earlier -> result_url r' <> result_url r) ->
    first_occurrences earlier results = results.
Proof.
  induction results as [|r rest IH]; intros earlier Hurl Hnd Hfresh; [reflexivity|].
  cbn [first_occurrences]. apply Forall_cons_iff in Hurl as [Hr Hrest].
  cbn [List.map] in Hnd. apply List.NoDup_cons_iff in Hnd as [Hnotin Hnd].
  rewrite Hr. cbn [andb].
  destruct (existsb _ earlier) eqn:E.
  { apply same_url_exists in E as (r' & Hin & Heq).
    exfalso. exact (Hfresh r r' (or_introl eq_refl) Hin Heq). }
  cbn [negb]. f_equal. apply IH; try assumption.
  intros r2 r' H2 Hr'. apply in_app_or in Hr' as [Hr'|[<-|[]]].
  - apply Hfresh; [now right | assumption].
  - intros Heq. apply Hnotin. rewrite Heq. now apply in_map.
Qed.

(** X6. [search_all_engines] drops nothing exactly when every merged result has
    a URL and the URLs are pairwise different; deduplicating what it returns
    once more changes nothing. *)
Theorem distinct_urls_all_kept results :
  (unique_from ∅ results = results <->
   Forall (fun r => has_url r = true) results /\
   List.NoDup (List.map result_url results)) /\
  unique_from ∅ (unique_from ∅ results) = unique_from ∅ results.
Proof.
  assert (forall l, Forall (fun r => has_url r = true) l /\
                    List.NoDup (List.map result_url l) ->
                    unique_from ∅ l = l) as Hkeep.
  { intros l [Hurl Hnd]. rewrite unique_from_empty.
    apply first_occurrences_fixed; try assumption. intros r r' _ []. }
  assert (Forall (fun r => has_url r = true) (unique_from ∅ results) /\
          List.NoDup (List.map result_url (unique_from ∅ results))) as Hout.
  { rewrite unique_from_empty. split; [|apply first_occurrences_NoDup].
    apply List.Forall_forall. intros r Hin.
    now destruct (first_occurrences_In _ _ _ Hin). }
  split; [split|].
  - intros H. now rewrite <- H.
  - apply Hkeep.
  - now apply Hkeep.
Qed.

(** ** Credibility scorer: only the host counts *)

Lemma remove_unsafe_app a b :
  UrlParse.remove_unsafe (a ++ b) = UrlParse.remove_unsafe a ++ UrlParse.remove_unsafe b.
Proof.
  induction a as [|c a IH]; [reflexivity|].
  change (String c a ++ b) with (String c (a ++ b)). cbn [UrlParse.remove_unsafe].
  rewrite IH. now destruct (UrlParse.unsafe_byte c).
Qed.

Lemma remove_unsafe_safe s :
  all_chars (fun c => negb (UrlParse.unsafe_byte c)) s = true ->
  UrlParse.remove_unsafe s = s.
Proof.
  induction s as [|c s IH]; [reflexivity|]. cbn [all_chars UrlParse.remove_unsafe].
  intros H. apply andb_true_iff in H as [Hc Hs].
  apply negb_true_iff in Hc. now rewrite Hc, IH.
Qed.

Lemma all_chars_weaken (p q : ascii -> bool) s :
  (forall c, p c = true -> q c = true) ->
  all_chars p s = true -> all_chars q s = true.
Proof.
  intros Hpq. induction s as [|c s IH]; [reflexivity|]. cbn [all_chars].
  intros H. apply andb_true_iff in H as [Hc Hs]. now rewrite (Hpq c Hc), IH.
Qed.

Lemma scheme_char_plain c :
  UrlParse.scheme_char c = true ->
  UrlParse.unsafe_byte c = false /\ Ascii.eqb c ":"%char = false /\
  UrlParse.c0_or_space c = false /\ UrlParse.delimiter c = false.
Proof. destruct c as [[] [] [] [] [] [] [] []]; cbn; intros H; now try discriminate H. Qed.

Lemma delimiter_safe c : UrlParse.delimiter c = true -> UrlParse.unsafe_byte c = false.
Proof. destruct c as [[] [] [] [] [] [] [] []]; cbn; intros H; now try discriminate H. Qed.

Lemma isalpha_scheme_char c : PyStr.isalpha c = true -> UrlParse.scheme_char c = true.
Proof. unfold UrlParse.scheme_char. now intros ->. Qed.

Lemma after_scheme_app s rest :
  all_chars UrlParse.scheme_char s = true ->
  UrlParse.after_scheme (s ++ String ":"%char rest) = Some rest.
Proof.
  induction s as [|c s IH]; [reflexivity|]. cbn [all_chars].
  intros H. apply andb_true_iff in H as [Hc Hs].
  change (String c s ++ String ":"%char rest) with (String c (s ++ String ":"%char rest)).
  cbn [UrlParse.after_scheme].
  destruct (scheme_char_plain c Hc) as (_ & -> & _). now rewrite Hc, IH.
Qed.

Lemma until_delimiter_app host rest :
  all_chars (fun c => negb (UrlParse.delimiter c)) host = true ->
  starts_path rest = true ->
  UrlParse.until_delimiter (host ++ rest) = host.
Proof.
  intros Hhost Hrest. induction host as [|c host IH].
  - destruct rest as [|d rest]; [reflexivity|]. cbn [starts_path] in Hrest.
    change ("" ++ String d rest) with (String d rest).
    cbn [UrlParse.until_delimiter]. now rewrite Hrest.
  - cbn [all_chars] in Hhost. apply andb_true_iff in Hhost as [Hc Hhost].
    change (String c host ++ rest) with (String c (host ++ rest)).
    cbn [UrlParse.until_delimiter]. apply negb_true_iff in Hc.
    now rewrite Hc, IH.
Qed.

Lemma starts_path_remove_unsafe rest :
  starts_path rest = true -> starts_path (UrlParse.remove_unsafe rest) = true.
Proof.
  destruct rest as [|c rest]; [reflexivity|]. cbn [starts_path UrlParse.remove_unsafe].
  intros H. now rewrite (delimiter_safe c H).
Qed.

Lemma host_char_plain c :
  host_char c = true ->
  UrlParse.unsafe_byte c = false /\ UrlParse.delimiter c = false /\
  Ascii.eqb c "["%char = false /\ Ascii.eqb c "]"%char = false.
Proof. destruct c as [[] [] [] [] [] [] [] []]; cbn; intros H; now try discriminate H. Qed.

Lemma contains_one_char a s :
  all_chars (fun c => negb (Ascii.eqb c a)) s = true ->
  PyStr.contains (String a EmptyString) s = false.
Proof.
  induction s as [|c s IH]; [reflexivity|]. cbn [all_chars PyStr.contains String.prefix].
  intros H. apply andb_true_iff in H as [Hc Hs]. rewrite (IH Hs), orb_false_r.
  destruct (Ascii.ascii_dec a c) as [->|]; [|reflexivity].
  now rewrite Ascii.eqb_refl in Hc.
Qed.

(** X7. For a URL [scheme://host...] with a plain host, the score is that of
    the lower-cased host: whatever follows the host (path, query, fragment)
    has no influence, so a trusted name there earns nothing. *)
Theorem only_the_host_counts scheme host rest :
  valid_scheme scheme = true ->
  all_chars host_char host = true ->
  starts_path rest = true ->
  source_credibility (scheme ++ "://" ++ host ++ rest)
  = Ok (credibility_of_domain (PyStr.lower host)).
Proof.
  intros Hscheme Hhost Hrest.
  destruct scheme as [|c scheme]; [discriminate|].
  cbn [valid_scheme] in Hscheme. apply andb_true_iff in Hscheme as [Halpha Hchars].
  assert (all_chars (fun c => negb (UrlParse.unsafe_byte c)) (String c scheme) = true)
    as Hsafe_scheme.
  { apply (all_chars_weaken UrlParse.scheme_char); [|assumption].
    intros d Hd. now destruct (scheme_char_plain d Hd) as (-> & _). }
  assert (all_chars (fun c => negb (UrlParse.unsafe_byte c)) host = true) as Hsafe_host.
  { apply (all_chars_weaken host_char); [|assumption].
    intros d Hd. now destruct (host_char_plain d Hd) as (-> & _). }
  assert (all_chars (fun c => negb (UrlParse.delimiter c)) host = true) as Hnodelim.
  { apply (all_chars_weaken host_char); [|assumption].
    intros d Hd. now destruct (host_char_plain d Hd) as (_ & -> & _). }
  assert (UrlParse.unbalanced_brackets host = false) as Hbr.
  { unfold UrlParse.unbalanced_brackets.
    rewrite (contains_one_char "["%char), (contains_one_char "]"%char); [reflexivity| |].
    - apply (all_chars_weaken host_char); [|assumption].
      intros d Hd. now destruct (host_char_plain d Hd) as (_ & _ & _ & ->).
    - apply (all_chars_weaken host_char); [|assumption].
      intros d Hd. now destruct (host_char_plain d Hd) as (_ & _ & -> & _). }
  unfold source_credibility, UrlParse.netloc.
  assert (UrlParse.lstrip_c0 (String c scheme ++ "://" ++ host ++ rest)
          = String c scheme ++ "://" ++ host ++ rest) as ->.
  { change (String c scheme ++ "://" ++ host ++ rest)
      with (String c (scheme ++ "://" ++ host ++ rest)).
    cbn [UrlParse.lstrip_c0].
    now destruct (scheme_char_plain c (isalpha_scheme_char c Halpha)) as (_ & _ & -> & _). }
  rewrite !remove_unsafe_app, (remove_unsafe_safe _ Hsafe_scheme),
    (remove_unsafe_safe _ Hsafe_host).
  change (UrlParse.remove_unsafe "://") with "://".
  set (rest' := UrlParse.remove_unsafe rest).
  assert (UrlParse.drop_scheme (String c scheme ++ "://" ++ host ++ rest')
          = "//" ++ host ++ rest') as ->.
  { change (String c scheme ++ "://" ++ host ++ rest')
      with (String c (scheme ++ "://" ++ host ++ rest')).
    cbn [UrlParse.drop_scheme]. rewrite Halpha.
    change (String c (scheme ++ "://" ++ host ++ rest'))
      with (String c scheme ++ String ":"%char ("//" ++ host ++ rest')).
    now rewrite after_scheme_app. }
  change (UrlParse.splitnetloc ("//" ++ host ++ rest'))
    with (UrlParse.until_delimiter (host ++ rest')).
  rewrite until_delimiter_app by
    (try assumption; subst rest'; now apply starts_path_remove_unsafe).
  now rewrite Hbr.
Qed.

Lemma only_the_host_counts_witness :
  source_credibility ("https" ++ "://" ++ "blog.example.org" ++ "/linkedin.com/reuters?bbc")
  = Ok (credibility_of_domain (PyStr.lower "blog.example.org")).
Proof.
  apply (only_the_host_counts "https" "blog.example.org" "/linkedin.com/reuters?bbc");
    reflexivity.
Defined.

(** X8. A URL without ["//"], such as a bare [www.linkedin.com/in/jane], has an
    empty netloc and scores 0.6 whatever its host is. *)
Theorem bare_host_scores_floor host path :
  PyStr.nonempty host = true ->
  all_chars UrlParse.scheme_char host = true ->
  source_credibility (host ++ "/" ++ path) = Ok 0.6%Q.
Proof.
  intros Hne Hhost. destruct host as [|c host]; [discriminate|].
  assert (all_chars (fun c => negb (UrlParse.unsafe_byte c)) (String c host) = true)
    as Hsafe.
  { apply (all_chars_weaken UrlParse.scheme_char); [|assumption].
    intros d Hd. now destruct (scheme_char_plain d Hd) as (-> & _). }
  pose proof Hhost as Hall. cbn [all_chars] in Hhost.
  apply andb_true_iff in Hhost as [Hc Hrest].
  destruct (scheme_char_plain c Hc) as (_ & _ & Hc0 & Hdelim).
  unfold source_credibility, UrlParse.netloc.
  assert (UrlParse.lstrip_c0 (String c host ++ "/" ++ path)
          = String c host ++ "/" ++ path) as ->.
  { change (String c host ++ "/" ++ path) with (String c (host ++ "/" ++ path)).
    cbn [UrlParse.lstrip_c0]. now rewrite Hc0. }
  rewrite !remove_unsafe_app, (remove_unsafe_safe _ Hsafe).
  change (UrlParse.remove_unsafe "/") with "/".
  set (path' := UrlParse.remove_unsafe path).
  assert (UrlParse.after_scheme (String c host ++ "/" ++ path') = None) as Hnone.
  { clear Hc Hc0 Hdelim Hrest Hsafe Hne. revert Hall. generalize (String c host).
    intros s. induction s as [|d s IH]; [reflexivity|]. cbn [all_chars].
    intros H. apply andb_true_iff in H as [Hd Hs].
    change (String d s ++ "/" ++ path') with (String d (s ++ "/" ++ path')).
    cbn [UrlParse.after_scheme].
    destruct (scheme_char_plain d Hd) as (_ & -> & _). rewrite Hd. now apply IH. }
  assert (UrlParse.drop_scheme (String c host ++ "/" ++ path')
          = String c host ++ "/" ++ path') as ->.
  { unfold UrlParse.drop_scheme.
    change (String c host ++ "/" ++ path') with (String c (host ++ "/" ++ path')) at 1.
    cbv iota. rewrite Hnone. now destruct (PyStr.isalpha c). }
  assert (UrlParse.splitnetloc (String c host ++ "/" ++ path') = "") as ->.
  { change (String c host ++ "/" ++ path') with (String c (host ++ "/" ++ path')).
    unfold UrlParse.splitnetloc. unfold UrlParse.delimiter in Hdelim.
    destruct c as [[] [] [] [] [] [] [] []]; try reflexivity; discriminate Hdelim. }
  reflexivity.
Qed.

Lemma bare_host_scores_floor_witness :
  source_credibility ("www.linkedin.com" ++ "/" ++ "in/jane-doe") = Ok 0.6%Q.
Proof. apply (bare_host_scores_floor "www.linkedin.com" "in/jane-doe"); reflexivity. Defined.

(** ** What every step of [search] preserves *)





Section Stepwise.

Context {env : Env}.

(** A relation between the world before and after, kept by logging, by the
    aggregator and by the page fetcher, is kept by the whole of [search]. *)
Variable R : World -> World -> Prop.

Hypothesis R_refl : forall w, R w w.
Hypothesis R_trans : forall w1 w2 w3, R w1 w2 -> R w2 w3 -> R w1 w3.
Hypothesis R_tell : forall r w, R w (snd (tell r w)).
Hypothesis R_search : forall query w, R w (snd (search_all_engines query w)).
Hypothesis R_fetch : forall url w, R w (snd (fetch_page_text url 5000 w)).

Lemma visit_page_steps company role url name_candidates w :
  R w (snd (visit_page company role url name_candidates w)).
Proof using R_refl R_trans R_tell R_fetch.
  unfold visit_page, bind, ret.
  pose proof (R_fetch url w) as Hf.
  destruct (fetch_page_text url 5000 w) as [page_text w1]. cbn [snd] in Hf.
  destruct (PyStr.nonempty page_text); [|exact Hf].
  destruct (extract_name_from_text page_text company role) as [name|]; [|exact Hf].
  destruct (PyStr.nonempty name); [|exact Hf].
  pose proof (R_tell (FoundInPage name url) w1) as Ht.
  destruct (tell (FoundInPage name url) w1) as [[] w2]. cbn [snd] in *.
  exact (R_trans _ _ _ Hf Ht).
Qed.

Lemma visit_result_steps company role res name_candidates w :
  R w (snd (visit_result company role res name_candidates w)).
Proof using R_refl R_trans R_tell R_fetch.
  unfold visit_result.
  destruct (result_url res) as [url|]; [|apply R_refl].
  destruct (negb (PyStr.nonempty url)); [apply R_refl|]. cbv zeta.
  destruct (match res_body res with Some _ => _ | None => _ end) as [name|];
    [|apply visit_page_steps].
  destruct (PyStr.nonempty name); [|apply visit_page_steps].
  unfold bind, ret.
  pose proof (R_tell (FoundInSnippet name url) w) as Ht.
  now destruct (tell (FoundInSnippet name url) w) as [[] w1].
Qed.

Lemma visit_results_steps company role results :
  forall name_candidates w,
    R w (snd (visit_results company role results name_candidates w)).
Proof using R_refl R_trans R_tell R_fetch.
  induction results as [|res rest IH]; intros c w; cbn [visit_results].
  - apply R_refl.
  - unfold bind.
    pose proof (visit_result_steps company role res c w) as H1.
    destruct (visit_result company role res c w) as [[c1|e] w1]; cbn [snd] in H1.
    + exact (R_trans _ _ _ H1 (IH c1 w1)).
    + exact H1.
Qed.

Lemma query_loop_steps company role queries :
  forall name_candidates w,
    R w (snd (query_loop company role queries name_candidates w)).
Proof using R_refl R_trans R_tell R_search R_fetch.
  induction queries as [|query rest IH]; intros c w; cbn [query_loop].
  - apply R_refl.
  - unfold bind.
    pose proof (R_tell (RunningQuery query) w) as H0.
    destruct (tell (RunningQuery query) w) as [[] w0]. cbn [snd] in H0.
    pose proof (R_search query w0) as H1.
    destruct (search_all_engines query w0) as [results w1]. cbn [snd] in H1.
    pose proof (visit_results_steps company role results c w1) as H2.
    destruct (visit_results company role results c w1) as [[c1|e] w2]; cbn [snd] in H2.
    + destruct (stop_condition c1).
      * exact (R_trans _ _ _ H0 (R_trans _ _ _ H1 H2)).
      * exact (R_trans _ _ _ H0 (R_trans _ _ _ H1 (R_trans _ _ _ H2 (IH c1 w2)))).
    + exact (R_trans _ _ _ H0 (R_trans _ _ _ H1 H2)).
Qed.

Lemma search_with_steps queries company role w :
  R w (snd (search_with queries company role w)).
Proof using R_refl R_trans R_tell R_search R_fetch.
  unfold search_with, bind.
  pose proof (query_loop_steps company role queries [] w) as H.
  destruct (query_loop company role queries [] w) as [[c|e] w1]; cbn [snd] in H.
  - destruct (conclude company role c); cbn; [assumption|].
    exact (R_trans _ _ _ H (R_tell Traceback w1)).
  - cbn. exact (R_trans _ _ _ H (R_tell Traceback w1)).
Qed.

End Stepwise.

Section PipelineMore.

Context {env : Env}.

(** ** Name extractor *)

Lemma first_some_In {A B : Type} (f : A -> option B) l y :
  first_some f l = Some y -> exists x, In x l /\ f x = Some y.
Proof.
  induction l as [|x l IH]; cbn [first_some]; [discriminate|].
  destruct (f x) as [y'|] eqn:E.
  - intros [= <-]. exists x. split; [now left | assumption].
  - intros H. destruct (IH H) as (x' & Hin & Hx'). exists x'. split; [now right | assumption].
Qed.

Lemma extract_name_with_ner_origin text company role name :
  extract_name_with_ner text company role = Some name ->
  USE_NER = true /\
  exists ent,
    In ent (nlp_ents (PyStr.take 10000 text)) /\
    label_ ent = "PERSON" /\
    PyStr.contains (PyStr.lower company) (PyStr.lower (sent_text ent)) = true /\
    PyStr.contains (PyStr.lower role) (PyStr.lower (sent_text ent)) = true /\
    name = PyStr.strip (ent_text ent) /\
    is_likely_name name = true.
Proof.
  unfold extract_name_with_ner. destruct USE_NER; cbn [negb]; [|discriminate].
  intros H. split; [reflexivity|].
  apply first_some_In in H as (ent & Hin & H). exists ent. split; [assumption|].
  destruct (String.eqb_spec (label_ ent) "PERSON") as [Hl|]; [|discriminate].
  destruct (PyStr.contains (PyStr.lower company) _) eqn:Hc; [|discriminate].
  destruct (PyStr.contains (PyStr.lower role) _) eqn:Hr; [|discriminate].
  cbn [andb] in H.
  destruct (is_likely_name (PyStr.strip (ent_text ent))) eqn:Hn; [|discriminate].
  injection H as <-. repeat split; auto.
Qed.

Lemma extract_name_from_text_likely text company role name :
  extract_name_from_text text company role = Some name ->
  is_likely_name name = true.
Proof.
  unfold extract_name_from_text.
  destruct (truthy (if USE_NER then _ else None)) eqn:Ht.
  - destruct USE_NER; [|discriminate]. intros H.
    now destruct (extract_name_with_ner_origin _ _ _ _ H)
      as (_ & ? & _ & _ & _ & _ & _ & ?).
  - intros H. apply first_some_In in H as (pattern & _ & H).
    apply first_some_In in H as (m & _ & H).
    destruct (is_likely_name (PyStr.strip m)) eqn:E; [|discriminate].
    now injection H as <-.
Qed.

Lemma likely_name_nonempty name : is_likely_name name = true -> PyStr.nonempty name = true.
Proof. unfold is_likely_name. now destruct name. Qed.

(** X9. A name that the extractor returns has passed [is_likely_name], whether
    it comes from the patterns or from the NER model, from a snippet or
    from a page. *)
Theorem extracted_names_are_likely text company role name :
  (extract_name_from_text text company role = Some name ->
   is_likely_name name = true) /\
  (extract_name_from_snippet text company role = Some name ->
   is_likely_name name = true) /\
  (extract_name_with_ner text company role = Some name ->
   is_likely_name name = true).
Proof.
  split; [|split].
  - apply extract_name_from_text_likely.
  - apply extract_name_from_text_likely.
  - intros H. now destruct (extract_name_with_ner_origin _ _ _ _ H)
      as (_ & ? & _ & _ & _ & _ & _ & ?).
Qed.

(** X10. With the NER model present, a person it names in a sentence that
    mentions the company and the role wins over the patterns; the model
    reads at most the first 10000 characters. *)
Theorem ner_name_comes_first text company role name :
  extract_name_with_ner text company role = Some name ->
  extract_name_from_text text company role = Some name /\
  exists ent,
    In ent (nlp_ents (PyStr.take 10000 text)) /\
    label_ ent = "PERSON" /\
    PyStr.contains (PyStr.lower company) (PyStr.lower (sent_text ent)) = true /\
    PyStr.contains (PyStr.lower role) (PyStr.lower (sent_text ent)) = true /\
    name = PyStr.strip (ent_text ent).
Proof.
  intros H.
  destruct (extract_name_with_ner_origin _ _ _ _ H)
    as (Huse & ent & Hin & Hl & Hc & Hr & Hn & Hlikely).
  split.
  - unfold extract_name_from_text. rewrite Huse, H. cbn [truthy].
    now rewrite (likely_name_nonempty _ Hlikely).
  - exists ent. repeat split; auto.
Qed.

(** ** What the loop accumulates *)

(** A result either leaves the candidates alone or appends its own URL
    under a name the extractor accepted, after logging the find. *)
Lemma visit_page_finds company role url name_candidates w r w' :
  visit_page company role url name_candidates w = (r, w') ->
  r = Ok name_candidates \/
  exists name,
    is_likely_name name = true /\
    In (FoundInPage name url) (log w') /\
    r = append_source name url name_candidates.
Proof.
  unfold visit_page, bind, ret.
  destruct (fetch_page_text url 5000 w) as [page_text w1].
  destruct (PyStr.nonempty page_text); [|intros [= <- <-]; now left].
  destruct (extract_name_from_text page_text company role) as [name|] eqn:Hx;
    [|intros [= <- <-]; now left].
  destruct (PyStr.nonempty name); [|intros [= <- <-]; now left].
  cbn. intros [= <- <-]. right. exists name. split; [|split; [|reflexivity]].
  - exact (extract_name_from_text_likely _ _ _ _ Hx).
  - cbn. apply in_or_app. right. now left.
Qed.

Lemma visit_result_finds company role res name_candidates w r w' :
  visit_result company role res name_candidates w = (r, w') ->
  r = Ok name_candidates \/
  exists name url,
    result_url res = Some url /\ PyStr.nonempty url = true /\
    is_likely_name name = true /\
    (In (FoundInSnippet name url) (log w') \/ In (FoundInPage name url) (log w')) /\
    r = append_source name url name_candidates.
Proof.
  unfold visit_result.
  destruct (result_url res) as [url|]; [|unfold ret; intros [= <- <-]; now left].
  destruct (PyStr.nonempty url) eqn:Hurl; cbn [negb];
    [|unfold ret; intros [= <- <-]; now left].
  cbv zeta.
  assert (visit_page company role url name_candidates w = (r, w') ->
          r = Ok name_candidates \/
          exists name url0,
            Some url = Some url0 /\ PyStr.nonempty url0 = true /\
            is_likely_name name = true /\
            (In (FoundInSnippet name url0) (log w') \/ In (FoundInPage name url0) (log w')) /\
            r = append_source name url0 name_candidates) as Hpage.
  { intros H. apply visit_page_finds in H as [H|(name & Hname & Hlog & H)];
      [now left|]. right. exists name, url. repeat split; auto. }
  destruct (match res_body res with Some _ => _ | None => _ end) as [name|] eqn:Hx;
    [|exact Hpage].
  destruct (PyStr.nonempty name); [|exact Hpage].
  assert (is_likely_name name = true) as Hlikely.
  { destruct (res_body res) as [snippet|]; [|discriminate].
    destruct (PyStr.nonempty snippet); [|discriminate].
    exact (extract_name_from_text_likely _ _ _ _ Hx). }
  unfold bind, ret. cbn. intros [= <- <-]. right. exists name, url.
  repeat split; try assumption. left. cbn. apply in_or_app. right. now left.
Qed.

(** Whatever appending a source with a non-empty URL under an accepted name
    preserves, the loop preserves. *)
Section Accumulated.

Variable P : Candidates -> Prop.

Hypothesis append_source_keeps :
  forall name url name_candidates name_candidates',
    is_likely_name name = true ->
    PyStr.nonempty url = true ->
    append_source name url name_candidates = Ok name_candidates' ->
    P name_candidates -> P name_candidates'.

Lemma visit_results_keeps company role results :
  forall name_candidates w name_candidates' w',
    visit_results company role results name_candidates w = (Ok name_candidates', w') ->
    P name_candidates -> P name_candidates'.
Proof using append_source_keeps.
  induction results as [|res rest IH]; intros c w c' w'; cbn [visit_results].
  - unfold ret. now intros [= <- <-].
  - unfold bind. destruct (visit_result company role res c w) as [[c1|e] w1] eqn:E;
      [|unfold ret; discriminate].
    intros H HP. apply (IH _ _ _ _ H).
    apply visit_result_finds in E
      as [[= <-]|(name & url & _ & Hurl & Hname & _ & E)]; [assumption|].
    symmetry in E. exact (append_source_keeps _ _ _ _ Hname Hurl E HP).
Qed.

Lemma query_loop_keeps company role queries :
  forall name_candidates w name_candidates' w',
    query_loop company role queries name_candidates w = (Ok name_candidates', w') ->
    P name_candidates -> P name_candidates'.
Proof using append_source_keeps.
  induction queries as [|query rest IH]; intros c w c' w'; cbn [query_loop].
  - unfold ret. now intros [= <- <-].
  - unfold bind.
    destruct (tell (RunningQuery query) w) as [[] w0].
    destruct (search_all_engines query w0) as [results w1].
    destruct (visit_results company role results c w1) as [[c1|e] w2] eqn:E;
      [|unfold ret; discriminate].
    intros H HP. pose proof (visit_results_keeps _ _ _ _ _ _ _ E HP) as HP1.
    destruct (stop_condition c1).
    + unfold ret in H. now injection H as <- <-.
    + exact (IH _ _ _ _ H HP1).
Qed.

End Accumulated.

Lemma add_contribution_likely name c name_candidates :
  is_likely_name name = true ->
  likely_names name_candidates ->
  likely_names (add_contribution name c name_candidates).
Proof.
  intros Hname. induction 1 as [|[n sources] rest Hn Hrest IH]; cbn [add_contribution].
  - constructor; [assumption | constructor].
  - destruct (String.eqb n name); constructor; assumption.
Qed.

Lemma add_contribution_scored name url score name_candidates :
  PyStr.nonempty url = true ->
  source_credibility url = Ok score ->
  scored_by_credibility name_candidates ->
  scored_by_credibility (add_contribution name (url, score) name_candidates).
Proof.
  intros Hurl Hscore. induction 1 as [|[n sources] rest Hn Hrest IH];
    cbn [add_contribution].
  - constructor; [|constructor]. cbn. constructor; [now split | constructor].
  - destruct (String.eqb n name).
    + constructor; [|assumption]. cbn in *. apply Forall_app. split; [assumption|].
      constructor; [now split | constructor].
    + constructor; assumption.
Qed.

Lemma query_loop_likely_names company role queries name_candidates w name_candidates' w' :
  query_loop company role queries name_candidates w = (Ok name_candidates', w') ->
  likely_names name_candidates -> likely_names name_candidates'.
Proof.
  apply (query_loop_keeps likely_names). intros name url c c' Hname _.
  unfold append_source. destruct (source_credibility url); [|discriminate].
  intros [= <-]. now apply add_contribution_likely.
Qed.

Lemma query_loop_scored company role queries name_candidates w name_candidates' w' :
  query_loop company role queries name_candidates w = (Ok name_candidates', w') ->
  scored_by_credibility name_candidates -> scored_by_credibility name_candidates'.
Proof.
  apply (query_loop_keeps scored_by_credibility). intros name url c c' _ Hurl.
  unfold append_source. destruct (source_credibility url) eqn:E; [|discriminate].
  intros [= <-]. now apply add_contribution_scored.
Qed.

(** X11. Every name the loop accumulates was accepted by [is_likely_name], and
    every contribution pairs a non-empty URL with the credibility of that
    very URL. *)
Theorem accumulated_candidates_are_sound company role queries w name_candidates w' :
  query_loop company role queries [] w = (Ok name_candidates, w') ->
  likely_names name_candidates /\
  scored_by_credibility name_candidates /\
  List.NoDup (List.map fst name_candidates).
Proof.
  intros H. split; [|split].
  - apply (query_loop_likely_names _ _ _ _ _ _ _ H). constructor.
  - apply (query_loop_scored _ _ _ _ _ _ _ H). constructor.
  - apply (query_loop_names_distinct _ _ _ _ _ _ _ H). constructor.
Qed.

End PipelineMore.

(** ** What an answer is made of *)

Open Scope Q_scope.

Lemma sum_scores_floor (l : list Q) :
  Forall (fun x => 0.6 <= x) l -> 0.6 * of_len l <= fold_right Qplus 0 l.
Proof.
  induction 1 as [|x l Hx Hl IH].
  - cbn. discriminate.
  - assert (of_len (x :: l) == of_len l + 1) as ->.
    { unfold of_len. cbn [length]. rewrite Nat2Z.inj_succ, <- Z.add_1_r, inject_Z_plus.
      reflexivity. }
    cbn [fold_right]. lra.
Qed.

Lemma spec_score_floor name contribs carried_url :
  contribs <> [] ->
  Forall (fun c => 0.6 <= snd c) contribs ->
  0.594 <= spec_score name contribs carried_url.
Proof.
  intros Hne Hall. unfold spec_score. apply Q.min_glb; [|discriminate].
  assert (0.6 <= mean (List.map snd contribs)) as Hmean.
  { unfold mean. apply Qle_shift_div_l.
    - apply of_len_positive. now destruct contribs.
    - apply sum_scores_floor. clear Hne.
      induction Hall; cbn [List.map]; constructor; assumption. }
  assert (0.99 <= spec_multiplier name (length contribs) carried_url) as Hmult.
  { unfold spec_multiplier.
    assert (1 <= inject_Z (Z.of_nat (length contribs))) as Hn.
    { destruct contribs; [congruence|]. unfold Qle. cbn [length]. simpl. lia. }
    set (n := inject_Z (Z.of_nat (length contribs))) in *.
    destruct (generic_name name), (mentions_news carried_url); lra. }
  set (m := mean (List.map snd contribs)) in *.
  set (k := spec_multiplier name (length contribs) carried_url) in *.
  change (0.594 <= m * k).
  assert (0 <= (m - 0.6) * (k - 0.99)) as Hprod by (apply Qmult_le_0_compat; lra).
  lra.
Qed.

Lemma final_score_floor name contribs carried_url score :
  Forall (fun c => 0.6 <= snd c) contribs ->
  final_score name contribs carried_url = Ok score ->
  0.594 <= score.
Proof.
  intros Hall Hs.
  assert (contribs <> []) as Hne by (destruct contribs; [discriminate Hs | discriminate]).
  destruct (final_score_spec name contribs carried_url Hne) as (score' & Hs' & Heq).
  assert (score' = score) as -> by congruence.
  rewrite Heq. now apply spec_score_floor.
Qed.

Lemma rank_from_floor items :
  well_formed items ->
  forall b0 b,
    b0 = initial_best \/ 0.594 <= best_score b0 ->
    rank_from b0 items = Ok b ->
    b = initial_best \/ 0.594 <= best_score b.
Proof.
  induction 1 as [|[name contribs] items (_ & _ & Hall) _ IH]; intros b0 b Hb0;
    cbn [rank_from].
  - now intros [= <-].
  - destruct (rank_step b0 (name, contribs)) as [b1|] eqn:Hstep; [|discriminate].
    apply IH. unfold rank_step in Hstep. cbn [snd] in Hall.
    destruct (final_score name contribs (best_url b0)) as [score|] eqn:Hs; [|discriminate].
    destruct (Qltb (best_score b0) score).
    + destruct (py_max_by_score contribs); [|discriminate].
      injection Hstep as <-. right. cbn. exact (final_score_floor _ _ _ _ Hall Hs).
    + now injection Hstep as <-.
Qed.

Lemma py_round_floor (x : Q) : 0.594 <= x -> 0.59 <= py_round x 2.
Proof.
  intros Hx. unfold py_round.
  change (inject_Z (10 ^ Z.of_nat 2)) with (100 # 1).
  destruct x as [n d].
  assert (594 * Zpos d <= n * 1000)%Z as Hn by (unfold Qle in Hx; simpl in Hx; lia).
  assert (((n # d) * (100 # 1)) = Qmake (n * 100) (d * 1)) as -> by reflexivity.
  assert (59 <= round_half_even (Qmake (n * 100) (d * 1)))%Z as Hr.
  { unfold round_half_even. cbn [Qnum Qden].
    assert (59 <= (n * 100) / Zpos (d * 1))%Z as Hfl.
    { apply Z.div_le_lower_bound; lia. }
    destruct (2 * ((n * 100) mod Zpos (d * 1)) ?= Zpos (d * 1))%Z;
      [destruct (Z.even _)| |]; lia. }
  set (z := round_half_even (Qmake (n * 100) (d * 1))) in *.
  unfold Qle, Qdiv, Qmult, Qinv, inject_Z; simpl; lia.
Qed.

Close Scope Q_scope.

Lemma is_word_nonempty w : is_word w -> PyStr.nonempty w = true.
Proof. now intros [H _]. Qed.

Lemma likely_name_two_words name :
  is_likely_name name = true ->
  exists first second rest,
    PyStr.split name = first :: second :: rest /\
    is_word first /\ is_word second.
Proof.
  unfold is_likely_name. pose proof (PyStrFacts.split_words name) as Hwords.
  destruct (PyStr.split name) as [|first [|second rest]]; try discriminate.
  intros _. apply Forall_cons_iff in Hwords as [H1 Hwords].
  apply Forall_cons_iff in Hwords as [H2 _]. now exists first, second, rest.
Qed.

Lemma join_nonempty sep first rest :
  PyStr.nonempty first = true -> PyStr.nonempty (PyStr.join sep (first :: rest)) = true.
Proof.
  intros H. unfold PyStr.join. cbn [String.concat].
  destruct rest; [assumption|]. now destruct first.
Qed.

Section PipelineAnswers.

Context {env : Env}.

(** What [search] concludes from candidates the loop has accumulated. *)
Lemma conclude_found company role name_candidates :
  name_candidates <> [] ->
  well_formed name_candidates ->
  likely_names name_candidates ->
  scored_by_credibility name_candidates ->
  exists b name first second rest sources score,
    rank name_candidates = Ok b /\
    best_name b = Some name /\
    PyStr.split name = first :: second :: rest /\
    is_word first /\ is_word second /\
    In (name, sources) name_candidates /\
    In (best_url b, score) sources /\
    (0.594 <= best_score b)%Q /\
    conclude company role name_candidates =
      Ok (Found {| first_name := first;
                   last_name := PyStr.join " " (second :: rest);
                   title := role;
                   company := company;
                   source_url := best_url b;
                   confidence := py_round (best_score b) 2 |}).
Proof.
  intros Hne Hwf Hlikely Hscored.
  destruct (rank_chosen name_candidates Hwf Hne) as (b & Hrank & name & Hname & Hnonempty & Hpos).
  destruct (rank_from_source name_candidates name_candidates (incl_refl _)
              initial_best b name Hrank Hname) as [[H _]|(sources & score & Hin & Hurl & _)];
    [discriminate H|].
  assert (is_likely_name name = true) as Hl.
  { unfold likely_names in Hlikely. rewrite List.Forall_forall in Hlikely.
    exact (Hlikely _ Hin). }
  destruct (likely_name_two_words name Hl) as (first & second & rest & Hsplit & H1 & H2).
  assert (0.594 <= best_score b)%Q as Hfloor.
  { destruct (rank_from_floor name_candidates Hwf initial_best b (or_introl eq_refl) Hrank)
      as [->|H]; [discriminate Hname | exact H]. }
  exists b, name, first, second, rest, sources, score.
  repeat (split; [assumption|]).
  unfold conclude. destruct name_candidates as [|item items]; [congruence|].
  destruct (rank _) as [b'|e] eqn:Hr; [|discriminate Hrank].
  injection Hrank as ->.
  unfold select_output. now rewrite Hname, Hnonempty, Hsplit.
Qed.

Lemma search_with_found queries company role w a w' :
  search_with queries company role w = (Found a, w') ->
  exists name_candidates,
    query_loop company role queries [] w = (Ok name_candidates, w') /\
    name_candidates <> [] /\
    conclude company role name_candidates = Ok (Found a).
Proof.
  unfold search_with, bind.
  destruct (query_loop company role queries [] w) as [[c|e] w1]; [|cbn; discriminate].
  destruct (conclude company role c) as [response|e] eqn:Hc; [|cbn; discriminate].
  unfold ret. intros [= -> <-]. exists c. repeat split; try assumption.
  intros ->. discriminate Hc.
Qed.

Lemma search_with_found_parts queries company role w a w' :
  search_with queries company role w = (Found a, w') ->
  exists name_candidates b name first second rest sources score,
    query_loop company role queries [] w = (Ok name_candidates, w') /\
    scored_by_credibility name_candidates /\
    rank name_candidates = Ok b /\
    best_name b = Some name /\
    PyStr.split name = first :: second :: rest /\
    is_word first /\ is_word second /\
    In (name, sources) name_candidates /\
    In (best_url b, score) sources /\
    (0.594 <= best_score b)%Q /\
    a = {| first_name := first;
           last_name := PyStr.join " " (second :: rest);
           title := role;
           company := company;
           source_url := best_url b;
           confidence := py_round (best_score b) 2 |}.
Proof.
  intros H. apply search_with_found in H as (c & Hrun & Hne & Hc).
  assert (well_formed c) as Hwf
    by (apply (query_loop_well_formed _ _ _ _ _ _ _ Hrun); constructor).
  assert (likely_names c) as Hl
    by (apply (query_loop_likely_names _ _ _ _ _ _ _ Hrun); constructor).
  assert (scored_by_credibility c) as Hs
    by (apply (query_loop_scored _ _ _ _ _ _ _ Hrun); constructor).
  destruct (conclude_found company role c Hne Hwf Hl Hs)
    as (b & name & first & second & rest & sources & score &
        Hrank & Hname & Hsplit & H1 & H2 & Hin & Hurl & Hfloor & Hc').
  exists c, b, name, first, second, rest, sources, score.
  repeat (split; [assumption|]). congruence.
Qed.

(** X12. An answer always has a first and a last name that are not empty, and
    the first name holds no white space: the branch of [search] that
    returns an empty last name is never taken. *)
Theorem answer_names_are_not_empty queries comp role w a w' :
  search_with queries comp role w = (Found a, w') ->
  PyStr.nonempty (first_name a) = true /\
  PyStr.nonempty (last_name a) = true /\
  some_char PyStr.isspace (first_name a) = false.
Proof.
  intros H. apply search_with_found_parts in H
    as (c & b & name & first & second & rest & sources & score &
        _ & _ & _ & _ & _ & [Hf1 Hf2] & [Hs1 _] & _ & _ & _ & ->).
  cbn [first_name last_name]. split; [assumption|]. split; [now apply join_nonempty|].
  clear - Hf2. induction first as [|c first IH]; [reflexivity|].
  cbn [all_chars some_char] in *. apply andb_true_iff in Hf2 as [Hc Hf2].
  unfold solid in Hc. apply negb_true_iff in Hc. now rewrite Hc, IH.
Qed.

(** X13. The confidence of an answer is at least 0.59: every score is at least
    0.6 and the multiplier at least 1.1 * 0.9. *)
Theorem answer_confidence_floor queries comp role w a w' :
  search_with queries comp role w = (Found a, w') ->
  (0.59 <= confidence a)%Q.
Proof.
  intros H. apply search_with_found_parts in H
    as (c & b & name & first & second & rest & sources & score &
        _ & _ & _ & _ & _ & _ & _ & _ & _ & Hfloor & ->).
  cbn [confidence]. now apply py_round_floor.
Qed.

(** X14. The URL of an answer is a non-empty URL recorded for the winning name,
    and the score recorded with it is the credibility of that URL. *)
Theorem answer_url_is_scored queries comp role w a w' :
  search_with queries comp role w = (Found a, w') ->
  PyStr.nonempty (source_url a) = true /\
  exists score,
    source_credibility (source_url a) = Ok score /\ (0.6 <= score)%Q.
Proof.
  intros H. apply search_with_found_parts in H
    as (c & b & name & first & second & rest & sources & score &
        _ & Hscored & _ & _ & _ & _ & _ & Hin & Hurl & _ & ->).
  cbn [source_url]. unfold scored_by_credibility in Hscored.
  rewrite List.Forall_forall in Hscored. specialize (Hscored _ Hin). cbn [snd] in Hscored.
  rewrite List.Forall_forall in Hscored. destruct (Hscored _ Hurl) as [Hne Hs].
  cbn [fst snd] in *. split; [assumption|]. exists score. split; [assumption|].
  exact (source_credibility_floor _ _ Hs).
Qed.

End PipelineAnswers.

Section PipelineWorld.

Context {env : Env}.

(** ** Failures: search results are retried, pages are remembered *)

(** X15. A failed call of the primary provider returns no result and stores
    nothing, so the next call with the same query asks the provider again
    and returns what it then answers. *)
Theorem failed_search_is_retried query n n' w :
  cache_search w !! cache_key ["ddg"; query] = None ->
  ddgs_text (calls w) query n = None ->
  let w1 := snd (search_duckduckgo query n w) in
  fst (search_duckduckgo query n w) = [] /\
  cache_search w1 = cache_search w /\
  calls w1 = (calls w ++ [DdgText query n])%list /\
  calls (snd (search_duckduckgo query n' w1)) = (calls w1 ++ [DdgText query n'])%list /\
  forall results,
    ddgs_text (calls w1) query n' = Some results ->
    fst (search_duckduckgo query n' w1) = results.
Proof.
  intros Hmiss Hfail w1.
  assert (search_duckduckgo query n w
          = ([], {| cache_search := cache_search w; cache_page := cache_page w;
                    calls := (calls w ++ [DdgText query n])%list;
                    log := (log w ++ [DdgFailed])%list |})) as Hfirst.
  { unfold search_duckduckgo, bind, get_world. rewrite Hmiss. cbn.
    now rewrite Hfail. }
  subst w1. rewrite Hfirst. cbn [fst snd cache_search calls].
  repeat (split; [reflexivity|]).
  unfold search_duckduckgo, bind, get_world. cbn [cache_search calls]. rewrite Hmiss. cbn.
  split.
  - now destruct (ddgs_text _ query n').
  - intros results ->. reflexivity.
Qed.

(** X16. The secondary provider: a status other than 200, an unreadable answer
    or an exception give no result and store nothing; when the provider is
    disabled the call changes nothing at all, whatever the cache holds. *)
Theorem failed_brave_stores_nothing query n w :
  (USE_BRAVE = false -> search_brave query n w = ([], w)) /\
  (USE_BRAVE = true ->
   cache_search w !! cache_key ["brave"; query] = None ->
   match brave_get (calls w) query n with
   | Some (200%nat, Some _) => False
   | _ => True
   end ->
   fst (search_brave query n w) = [] /\
   cache_search (snd (search_brave query n w)) = cache_search w /\
   cache_page (snd (search_brave query n w)) = cache_page w /\
   calls (snd (search_brave query n w)) = (calls w ++ [BraveGet query n])%list).
Proof.
  split.
  - intros Hoff. unfold search_brave. now rewrite Hoff.
  - intros Hon Hmiss Hfail. unfold search_brave, bind, get_world.
    rewrite Hon. cbn [negb]. cbv zeta. rewrite Hmiss. cbn.
    destruct (brave_get (calls w) query n) as [[status payload]|]; cbn; [|now repeat split].
    destruct (Nat.eqb_spec status 200) as [->|Hs]; cbn; [|now repeat split].
    destruct payload; [contradiction | now repeat split].
Qed.

(** X17. A page fetch that fails (an exception, a status other than 200 or HTML
    that cannot be read) returns the empty string and stores it: a later
    fetch of the same URL returns the empty string without any request. *)
Theorem failed_fetch_is_remembered url n n' w :
  cache_page w !! cache_key ["page"; url] = None ->
  match requests_get (calls w) url with
  | Some (status_code, html) =>
      status_code <> 200%nat \/ soup_get_text html = None
  | None => True
  end ->
  let w1 := snd (fetch_page_text url n w) in
  fst (fetch_page_text url n w) = "" /\
  cache_page w1 !! cache_key ["page"; url] = Some "" /\
  calls w1 = (calls w ++ [PageGet url])%list /\
  fst (fetch_page_text url n' w1) = "" /\
  calls (snd (fetch_page_text url n' w1)) = calls w1.
Proof.
  intros Hmiss Hfail w1.
  assert (fst (fetch_page_text url n w) = "" /\
          cache_page w1 !! cache_key ["page"; url] = Some "" /\
          calls w1 = (calls w ++ [PageGet url])%list) as (H1 & H2 & H3).
  { subst w1. unfold fetch_page_text, bind, get_world. rewrite Hmiss. cbn.
    destruct (requests_get (calls w) url) as [[status html]|]; cbn.
    - destruct (Nat.eqb_spec status 200) as [->|Hs]; cbn.
      + destruct Hfail as [Hfail|Hfail]; [congruence|]. rewrite Hfail. cbn.
        now rewrite lookup_insert_eq.
      + now rewrite lookup_insert_eq.
    - now rewrite lookup_insert_eq. }
  repeat (split; [assumption|]).
  rewrite (fetch_page_text_hit url n' w1 "" H2). now split.
Qed.

(** ** The page cache holds truncated texts only *)

Lemma take_length n s : (String.length (PyStr.take n s) <= n)%nat.
Proof.
  revert s. induction n as [|n IH]; intros s; cbn [PyStr.take]; [cbn; lia|].
  destruct s as [|c s]; cbn [String.length]; [lia|]. specialize (IH s). lia.
Qed.

Lemma fetch_page_text_bounded url n w :
  page_cache_bounded n w ->
  page_cache_bounded n (snd (fetch_page_text url n w)) /\
  (String.length (fst (fetch_page_text url n w)) <= n)%nat.
Proof.
  intros Hb. unfold fetch_page_text, bind, get_world.
  destruct (cache_page w !! cache_key ["page"; url]) as [cached|] eqn:E; cbn.
  { split; [exact Hb | exact (Hb _ _ E)]. }
  assert (forall text, (String.length text <= n)%nat ->
            page_cache_bounded n
              {| cache_search := cache_search w;
                 cache_page := <[cache_key ["page"; url] := text]> (cache_page w);
                 calls := (calls w ++ [PageGet url])%list; log := log w |}) as Hins.
  { intros text Ht key v. cbn. rewrite lookup_insert.
    destruct (decide (cache_key ["page"; url] = key)); [|apply Hb].
    now intros [= <-]. }
  assert (forall text r, (String.length text <= n)%nat ->
            page_cache_bounded n
              {| cache_search := cache_search w;
                 cache_page := <[cache_key ["page"; url] := text]> (cache_page w);
                 calls := (calls w ++ [PageGet url])%list;
                 log := (log w ++ [r])%list |}) as Hins'.
  { intros text r Ht key v. cbn. rewrite lookup_insert.
    destruct (decide (cache_key ["page"; url] = key)); [|apply Hb].
    now intros [= <-]. }
  destruct (requests_get (calls w) url) as [[status html]|]; cbn.
  - destruct (status =? 200)%nat; cbn.
    + destruct (soup_get_text html); cbn.
      * split; [apply Hins|]; apply take_length.
      * split; [apply Hins'|]; cbn; lia.
    + split; [apply Hins|]; cbn; lia.
  - split; [apply Hins'|]; cbn; lia.
Qed.

Lemma search_duckduckgo_page_cache query n w :
  cache_page (snd (search_duckduckgo query n w)) = cache_page w /\
  page_keys_fetched (snd (search_duckduckgo query n w)) = page_keys_fetched w.
Proof.
  unfold search_duckduckgo, bind, get_world, page_keys_fetched.
  destruct (cache_search w !! cache_key ["ddg"; query]); cbn; [now split|].
  destruct (ddgs_text (calls w) query n); cbn;
    rewrite flat_map_app; cbn; now rewrite app_nil_r.
Qed.

Lemma search_brave_page_cache query n w :
  cache_page (snd (search_brave query n w)) = cache_page w /\
  page_keys_fetched (snd (search_brave query n w)) = page_keys_fetched w.
Proof.
  unfold search_brave, bind, get_world, page_keys_fetched.
  destruct USE_BRAVE; cbn [negb]; [|now split]. cbv zeta.
  destruct (cache_search w !! cache_key ["brave"; query]); cbn; [now split|].
  destruct (brave_get (calls w) query n) as [[status payload]|]; cbn.
  - destruct (status =? 200)%nat; cbn; [destruct payload; cbn|];
      rewrite flat_map_app; cbn; now rewrite app_nil_r.
  - rewrite flat_map_app; cbn; now rewrite app_nil_r.
Qed.

Lemma search_all_engines_page_cache query w :
  cache_page (snd (search_all_engines query w)) = cache_page w /\
  page_keys_fetched (snd (search_all_engines query w)) = page_keys_fetched w.
Proof.
  unfold search_all_engines, bind, ret.
  pose proof (search_duckduckgo_page_cache query 20 w) as [H1 H2].
  destruct (search_duckduckgo query 20 w) as [primary w1]. cbn [snd] in *.
  destruct USE_BRAVE.
  - pose proof (search_brave_page_cache query 20 w1) as [H3 H4].
    destruct (search_brave query 20 w1) as [secondary w2]. cbn [snd] in *.
    split; congruence.
  - cbn. now split.
Qed.

(** X18. [search] only ever stores page texts of at most 5000 characters. *)
Theorem page_cache_stays_bounded queries company role w :
  page_cache_bounded 5000 w ->
  page_cache_bounded 5000 (snd (search_with queries company role w)).
Proof.
  apply (search_with_steps
           (fun w w' => page_cache_bounded 5000 w -> page_cache_bounded 5000 w')).
  - auto.
  - auto.
  - intros r w0 H key text. cbn. apply H.
  - intros query w0 H key text. destruct (search_all_engines_page_cache query w0) as [-> _].
    apply H.
  - intros url w0 H. now apply fetch_page_text_bounded.
Qed.

(** ** What [search] leaves behind *)





(** ** No page is fetched twice *)

Lemma fetch_page_text_once url n w :
  pages_fetched_once w -> pages_fetched_once (snd (fetch_page_text url n w)).
Proof.
  intros [Hnd Hcached].
  unfold fetch_page_text, bind, get_world.
  destruct (cache_page w !! cache_key ["page"; url]) as [cached|] eqn:E; cbn.
  { split; assumption. }
  assert (forall text lg,
            pages_fetched_once
              {| cache_search := cache_search w;
                 cache_page := <[cache_key ["page"; url] := text]> (cache_page w);
                 calls := (calls w ++ [PageGet url])%list; log := lg |}) as Hins.
  { intros text lg. unfold pages_fetched_once, page_keys_fetched. cbn [calls cache_page].
    rewrite flat_map_app. cbn [flat_map]. rewrite app_nil_r.
    fold (page_keys_fetched w). split.
    - apply List.NoDup_app.
      + assumption.
      + repeat constructor. intros [].
      + intros key Hin [<-|[]]. exact (Hcached _ Hin E).
    - intros key Hin. rewrite lookup_insert.
      destruct (decide (cache_key ["page"; url] = key)); [discriminate|].
      apply in_app_or in Hin as [Hin|[Hin|[]]]; [now apply Hcached | congruence]. }
  destruct (requests_get (calls w) url) as [[status html]|]; cbn; [|apply Hins].
  destruct (status =? 200)%nat; cbn; [|apply Hins].
  destruct (soup_get_text html); cbn; apply Hins.
Qed.

(** X20. When every page fetched so far is in the page cache, [search] never
    requests a page whose key it has requested before, nor one requested
    before it started. *)
Theorem no_page_is_fetched_twice queries company role w :
  pages_fetched_once w ->
  pages_fetched_once (snd (search_with queries company role w)).
Proof.
  apply (search_with_steps (fun w w' => pages_fetched_once w -> pages_fetched_once w')).
  - auto.
  - auto.
  - intros r w0 H. unfold pages_fetched_once, page_keys_fetched in *. cbn. exact H.
  - intros query w0 [Hnd Hcached].
    destruct (search_all_engines_page_cache query w0) as [Hc Hk].
    unfold pages_fetched_once. rewrite Hc, Hk. now split.
  - intros url w0. apply fetch_page_text_once.
Qed.

(** ** One contribution per result at most *)

Lemma fold_left_add_shift l a :
  fold_left Nat.add l a = (a + fold_left Nat.add l 0)%nat.
Proof.
  revert a. induction l as [|x l IH]; intros a; cbn [fold_left]; [lia|].
  rewrite (IH (a + x)%nat), (IH (0 + x)%nat). lia.
Qed.

Lemma total_contributions_cons item name_candidates :
  total_contributions (item :: name_candidates)
  = (length (snd item) + total_contributions name_candidates)%nat.
Proof.
  unfold total_contributions. cbn [List.map fold_left].
  rewrite fold_left_add_shift. lia.
Qed.

Lemma add_contribution_counts name c name_candidates :
  total_contributions (add_contribution name c name_candidates)
  = S (total_contributions name_candidates) /\
  (length name_candidates <= length (add_contribution name c name_candidates)
   <= S (length name_candidates))%nat.
Proof.
  induction name_candidates as [|[n sources] rest [IH1 IH2]]; cbn [add_contribution].
  - split; [reflexivity | cbn; lia].
  - destruct (String.eqb n name).
    + rewrite !total_contributions_cons. cbn [snd length].
      rewrite length_app. cbn. split; lia.
    + rewrite !total_contributions_cons, IH1. cbn [snd length]. split; lia.
Qed.

Lemma visit_results_counts company role results :
  forall name_candidates w name_candidates' w',
    visit_results company role results name_candidates w = (Ok name_candidates', w') ->
    (total_contributions name_candidates <= total_contributions name_candidates'
     <= total_contributions name_candidates + length results)%nat /\
    (length name_candidates <= length name_candidates')%nat.
Proof.
  induction results as [|res rest IH]; intros c w c' w'; cbn [visit_results length].
  - unfold ret. intros [= <- <-]. lia.
  - unfold bind. destruct (visit_result company role res c w) as [[c1|e] w1] eqn:E;
      [|unfold ret; discriminate].
    intros H. destruct (IH _ _ _ _ H) as [IH1 IH2].
    apply visit_result_finds in E as [[= <-]|(name & url & _ & _ & _ & _ & E)]; [lia|].
    unfold append_source in E. destruct (source_credibility url); [|discriminate].
    injection E as ->.
    destruct (add_contribution_counts name (url, a) c) as [H1 H2]. lia.
Qed.

(** X21. Each result read adds at most one contribution and removes none: after
    the loop, the contributions are no more than the results its queries
    returned, and no more names than contributions were found. *)
Theorem contributions_bounded_by_results company role queries :
  forall name_candidates w name_candidates' w',
    query_loop company role queries name_candidates w = (Ok name_candidates', w') ->
    (total_contributions name_candidates <= total_contributions name_candidates'
     <= total_contributions name_candidates
        + length (concat (results_seen company role queries name_candidates w)))%nat /\
    (length name_candidates <= length name_candidates')%nat.
Proof.
  induction queries as [|query rest IH]; intros c w c' w';
    cbn [query_loop results_seen concat].
  - unfold ret. intros [= <- <-]. cbn. lia.
  - unfold bind.
    destruct (tell (RunningQuery query) w) as [[] w0].
    destruct (search_all_engines query w0) as [results w1].
    destruct (visit_results company role results c w1) as [[c1|e] w2] eqn:E;
      [|unfold ret; discriminate].
    destruct (visit_results_counts _ _ _ _ _ _ _ E) as [H1 H2].
    cbn [concat]. rewrite length_app.
    destruct (stop_condition c1).
    + unfold ret. intros [= <- <-]. cbn. lia.
    + intros H. destruct (IH _ _ _ _ H) as [H3 H4]. lia.
Qed.

(** ** The only exception that reaches the handler *)




End PipelineWorld.

Section PipelineReads.

Context {env : Env}.

(** ** What the loop reads, and when it spares a page *)

Lemma results_seen_from_aggregator company role queries :
  forall name_candidates w results,
    In results (results_seen company role queries name_candidates w) ->
    exists query w0, results = fst (search_all_engines query w0).
Proof.
  induction queries as [|query rest IH]; intros c w results; cbn [results_seen].
  - intros [].
  - destruct (tell (RunningQuery query) w) as [[] w0].
    destruct (search_all_engines query w0) as [found w1] eqn:E.
    intros [<-|Hin].
    + exists query, w0. now rewrite E.
    + destruct (visit_results company role found c w1) as [[c1|e] w2]; [|destruct Hin].
      destruct (stop_condition c1); [destruct Hin|]. exact (IH _ _ _ Hin).
Qed.

(** X23. Every result the loop of [search] reads has a non-empty URL, and the
    results of one query have distinct URLs: the aggregator has dropped the
    others, so the test of lines 245-246 never skips a result. *)
Theorem results_read_have_urls company role queries name_candidates w results res :
  In results (results_seen company role queries name_candidates w) ->
  In res results ->
  (exists url, result_url res = Some url /\ PyStr.nonempty url = true) /\
  List.NoDup (List.map result_url results).
Proof.
  intros Hseen Hres.
  destruct (results_seen_from_aggregator _ _ _ _ _ _ Hseen) as (query & w0 & ->).
  unfold search_all_engines, bind, ret in *.
  destruct (search_duckduckgo query 20 w0) as [primary w1].
  destruct ((if USE_BRAVE then search_brave query 20 else fun w => ([], w)) w1)
    as [secondary w2].
  cbn [fst] in *. rewrite unique_from_empty in *. split.
  - destruct (first_occurrences_In _ _ _ Hres) as [Hurl _].
    unfold has_url, truthy in Hurl.
    destruct (result_url res) as [url|]; [|discriminate]. now exists url.
  - apply first_occurrences_NoDup.
Qed.

(** X24. A name found in the snippet of a result ends the work on that result:
    the source is appended under that name, the find is logged, and the
    page is neither fetched nor looked up in the cache. *)
Theorem snippet_name_spares_the_page company role res url snippet name name_candidates w :
  result_url res = Some url ->
  PyStr.nonempty url = true ->
  res_body res = Some snippet ->
  PyStr.nonempty snippet = true ->
  extract_name_from_snippet snippet company role = Some name ->
  visit_result company role res name_candidates w
  = (append_source name url name_candidates,
     {| cache_search := cache_search w; cache_page := cache_page w;
        calls := calls w; log := (log w ++ [FoundInSnippet name url])%list |}).
Proof.
  intros Hurl Hne Hbody Hsnippet Hname.
  pose proof (likely_name_nonempty _ (extract_name_from_text_likely _ _ _ _ Hname)) as Hn.
  unfold visit_result. rewrite Hurl, Hne, Hbody, Hsnippet. cbn [negb]. cbv zeta.
  rewrite Hname, Hn. reflexivity.
Qed.

End PipelineReads.

(** ** The further theorems at work on the sample environments *)

Lemma extracted_names_are_likely_witness :
  extract_name_from_snippet (env := demo_env) "CEO: Jane Doe" "Acme" "CEO" = Some "Jane Doe" /\
  is_likely_name "Jane Doe" = true.
Proof.
  split; [reflexivity|].
  apply (proj1 (proj2 (@extracted_names_are_likely demo_env "CEO: Jane Doe" "Acme" "CEO"
                         "Jane Doe"))).
  reflexivity.
Defined.

Lemma ner_name_comes_first_witness :
  let text := "Rita Stone is the CEO of Acme." in
  extract_name_from_text (env := ner_env) text "Acme" "CEO" = Some "Rita Stone" /\
  exists ent,
    In ent (nlp_ents (Env := ner_env) (PyStr.take 10000 text)) /\
    label_ ent = "PERSON" /\
    PyStr.contains (PyStr.lower "Acme") (PyStr.lower (sent_text ent)) = true /\
    PyStr.contains (PyStr.lower "CEO") (PyStr.lower (sent_text ent)) = true /\
    "Rita Stone" = PyStr.strip (ent_text ent).
Proof.
  intros text.
  apply (@ner_name_comes_first ner_env text "Acme" "CEO" "Rita Stone").
  reflexivity.
Defined.

Lemma accumulated_candidates_are_sound_witness :
  let name_candidates :=
    [("Jane Doe", [("https://www.linkedin.com/in/jane-doe", 0.95%Q);
                   ("https://en.wikipedia.org/wiki/Acme", 0.9%Q)]);
     ("Rita Stone", [("https://acme.example/team", 0.6%Q)])] in
  likely_names name_candidates /\
  scored_by_credibility name_candidates /\
  List.NoDup (List.map fst name_candidates).
Proof.
  intros name_candidates.
  apply (@accumulated_candidates_are_sound demo_env "Acme" "CEO" ["Acme CEO"] empty_world
           name_candidates
           (snd (query_loop (env := demo_env) "Acme" "CEO" ["Acme CEO"] [] empty_world))).
  rewrite (surjective_pairing (query_loop _ _ _ _ _)) at 1. f_equal.
Defined.

Lemma answer_names_are_not_empty_witness :
  let a := {| first_name := "Jane"; last_name := "Doe"; title := "CEO";
              company := "Acme";
              source_url := "https://www.linkedin.com/in/jane-doe";
              confidence := (100 # 100)%Q |} in
  PyStr.nonempty (first_name a) = true /\
  PyStr.nonempty (last_name a) = true /\
  some_char PyStr.isspace (first_name a) = false.
Proof.
  intros a.
  apply (@answer_names_are_not_empty demo_env (build_queries_some "Acme" "CEO")
           "Acme" "CEO" empty_world a
           (snd (search_with (env := demo_env) (build_queries_some "Acme" "CEO")
                   "Acme" "CEO" empty_world))).
  rewrite (surjective_pairing (search_with _ _ _ _)) at 1. f_equal.
Defined.

Lemma answer_confidence_floor_witness :
  let a := {| first_name := "Rita"; last_name := "Stone"; title := "CEO";
              company := "Acme";
              source_url := "https://acme.example/team";
              confidence := (66 # 100)%Q |} in
  (0.59 <= confidence a)%Q.
Proof.
  intros a.
  apply (@answer_confidence_floor demo_env ["Acme CEO"] "Acme" "CEO"
           {| cache_search := {[ cache_key (env := demo_env) ["ddg"; "Acme CEO"]
                                 := [ {| res_title := None;
                                         res_href := Some "https://acme.example/team";
                                         res_url := None; res_body := None |} ] ]};
              cache_page := ∅; calls := []; log := [] |}
           a
           (snd (search_with (env := demo_env) ["Acme CEO"] "Acme" "CEO"
                   {| cache_search := {[ cache_key (env := demo_env) ["ddg"; "Acme CEO"]
                                         := [ {| res_title := None;
                                                 res_href := Some "https://acme.example/team";
                                                 res_url := None; res_body := None |} ] ]};
                      cache_page := ∅; calls := []; log := [] |}))).
  rewrite (surjective_pairing (search_with _ _ _ _)) at 1. f_equal.
Defined.

Lemma answer_url_is_scored_witness :
  let a := {| first_name := "Jane"; last_name := "Doe"; title := "CEO";
              company := "Acme";
              source_url := "https://www.linkedin.com/in/jane-doe";
              confidence := (100 # 100)%Q |} in
  PyStr.nonempty (source_url a) = true /\
  exists score,
    source_credibility (source_url a) = Ok score /\ (0.6 <= score)%Q.
Proof.
  intros a.
  apply (@answer_url_is_scored demo_env (build_queries_some "Acme" "CEO")
           "Acme" "CEO" empty_world a
           (snd (search_with (env := demo_env) (build_queries_some "Acme" "CEO")
                   "Acme" "CEO" empty_world))).
  rewrite (surjective_pairing (search_with _ _ _ _)) at 1. f_equal.
Defined.

Lemma failed_search_is_retried_witness :
  let w1 := snd (search_duckduckgo (env := flaky_env) "Acme CEO" 20 empty_world) in
  fst (search_duckduckgo (env := flaky_env) "Acme CEO" 20 empty_world) = [] /\
  cache_search w1 = cache_search empty_world /\
  calls w1 = (calls empty_world ++ [DdgText "Acme CEO" 20])%list /\
  calls (snd (search_duckduckgo (env := flaky_env) "Acme CEO" 20 w1))
  = (calls w1 ++ [DdgText "Acme CEO" 20])%list /\
  forall results,
    ddgs_text (Env := flaky_env) (calls w1) "Acme CEO" 20 = Some results ->
    fst (search_duckduckgo (env := flaky_env) "Acme CEO" 20 w1) = results.
Proof.
  apply (@failed_search_is_retried flaky_env "Acme CEO" 20 20 empty_world); reflexivity.
Defined.

Lemma failed_brave_stores_nothing_witness :
  let run := search_brave (env := flaky_env) "Acme CEO" 20 empty_world in
  fst run = [] /\
  cache_search (snd run) = cache_search empty_world /\
  cache_page (snd run) = cache_page empty_world /\
  calls (snd run) = (calls empty_world ++ [BraveGet "Acme CEO" 20])%list.
Proof.
  apply (proj2 (@failed_brave_stores_nothing flaky_env "Acme CEO" 20 empty_world)).
  - reflexivity.
  - reflexivity.
  - exact I.
Defined.

Lemma failed_fetch_is_remembered_witness :
  let url := "https://www.linkedin.com/in/jane-doe" in
  let w1 := snd (fetch_page_text (env := demo_env) url 5000 empty_world) in
  fst (fetch_page_text (env := demo_env) url 5000 empty_world) = "" /\
  cache_page w1 !! cache_key (env := demo_env) ["page"; url] = Some "" /\
  calls w1 = (calls empty_world ++ [PageGet url])%list /\
  fst (fetch_page_text (env := demo_env) url 5000 w1) = "" /\
  calls (snd (fetch_page_text (env := demo_env) url 5000 w1)) = calls w1.
Proof.
  apply (@failed_fetch_is_remembered demo_env "https://www.linkedin.com/in/jane-doe"
           5000 5000 empty_world).
  - reflexivity.
  - exact I.
Defined.

Lemma page_cache_stays_bounded_witness :
  page_cache_bounded 5000 empty_world /\
  page_cache_bounded 5000
    (snd (search_with (env := demo_env) (build_queries_some "Acme" "CEO") "Acme" "CEO"
            empty_world)).
Proof.
  assert (page_cache_bounded 5000 empty_world) as H
    by (intros key text H; discriminate H).
  split; [exact H|].
  exact (@page_cache_stays_bounded demo_env (build_queries_some "Acme" "CEO") "Acme" "CEO"
           empty_world H).
Defined.

Lemma no_page_is_fetched_twice_witness :
  pages_fetched_once (env := demo_env) empty_world /\
  pages_fetched_once (env := demo_env)
    (snd (search_with (env := demo_env) (build_queries_some "Acme" "CEO") "Acme" "CEO"
            empty_world)).
Proof.
  assert (pages_fetched_once (env := demo_env) empty_world) as H
    by (split; [constructor | intros key []]).
  split; [exact H|].
  exact (@no_page_is_fetched_twice demo_env (build_queries_some "Acme" "CEO") "Acme" "CEO"
           empty_world H).
Defined.

Lemma contributions_bounded_by_results_witness :
  let name_candidates :=
    [("Jane Doe", [("https://www.linkedin.com/in/jane-doe", 0.95%Q);
                   ("https://en.wikipedia.org/wiki/Acme", 0.9%Q)]);
     ("Rita Stone", [("https://acme.example/team", 0.6%Q)])] in
  (total_contributions [] <= total_contributions name_candidates
   <= total_contributions []
      + length (concat (results_seen (env := demo_env) "Acme" "CEO" ["Acme CEO"] []
                          empty_world)))%nat /\
  (length (@nil (string * list Contribution)) <= length name_candidates)%nat.
Proof.
  intros name_candidates.
  apply (@contributions_bounded_by_results demo_env "Acme" "CEO" ["Acme CEO"] []
           empty_world name_candidates
           (snd (query_loop (env := demo_env) "Acme" "CEO" ["Acme CEO"] [] empty_world))).
  rewrite (surjective_pairing (query_loop _ _ _ _ _)) at 1. f_equal.
Defined.


Lemma results_read_have_urls_witness :
  let res := {| res_title := Some "Acme leadership";
                res_href := Some "https://acme.example/team";
                res_url := None;
                res_body := Some EmptyString |} in
  (exists url, result_url res = Some url /\ PyStr.nonempty url = true) /\
  List.NoDup (List.map result_url demo_results).
Proof.
  intros res.
  apply (@results_read_have_urls demo_env "Acme" "CEO" ["Acme CEO"] [] empty_world
           demo_results res).
  - vm_compute. left. reflexivity.
  - right. left. reflexivity.
Defined.

Lemma snippet_name_spares_the_page_witness :
  let res := {| res_title := Some "Jane Doe - Acme";
                res_href := Some "https://www.linkedin.com/in/jane-doe";
                res_url := None;
                res_body := Some "CEO: Jane Doe" |} in
  visit_result (env := demo_env) "Acme" "CEO" res [] empty_world
  = (append_source "Jane Doe" "https://www.linkedin.com/in/jane-doe" [],
     {| cache_search := cache_search empty_world; cache_page := cache_page empty_world;
        calls := calls empty_world;
        log := (log empty_world
                ++ [FoundInSnippet "Jane Doe" "https://www.linkedin.com/in/jane-doe"])%list |}).
Proof.
  intros res.
  apply (@snippet_name_spares_the_page demo_env "Acme" "CEO" res
           "https://www.linkedin.com/in/jane-doe" "CEO: Jane Doe" "Jane Doe" [] empty_world);
    reflexivity.
Defined.
